(** * A five-stage pipeline simulator with forwarding: model and properties

    Shallow embedding of [src/forwarding.cpp].  The C++ program keeps one
    mutable [Processor] object that five free functions update in place; here
    every stage is a function from processor state to processor state and the
    driver threads the state through them in the order of the source.

    Integers.  [uint32_t] values are integers in [0, 2^32); [int32_t] values
    are integers in [-2^31, 2^31).  Conversions between the two and the
    wrap-around of 32-bit arithmetic are written out with [to_uint32] and
    [to_int32].  Bit operations are those of [Z] (two's complement on negative
    numbers), which agree with the C++ operators on both representations.

    Diagnostics.  Of an [InstructionTrace] only the address is kept: the fetch
    and decode stages test whether an address has a trace entry, so the list
    of addresses is architectural state; the disassembly text and the
    per-cycle stage labels are write-only and are left out. *)

From Stdlib Require Import ZArith Bool List Lia.
From stdpp Require Import base list strings.

Open Scope Z_scope.

(** ** Machine integers *)

Definition to_uint32 (z : Z) : Z := z mod 2 ^ 32.

Definition to_int32 (z : Z) : Z := (z + 2 ^ 31) mod 2 ^ 32 - 2 ^ 31.

(** [x |= m] for an [int32_t] x and an [unsigned] m: x is converted to
    unsigned, the bits are merged, the result is converted back. *)
Definition or_assign (x m : Z) : Z := to_int32 (Z.lor (to_uint32 x) m).

(** ** Data model *)

Inductive InstructionFormat :=
  R_TYPE | I_TYPE | S_TYPE | B_TYPE | U_TYPE | J_TYPE.

Inductive Opcode :=
  | ADD | SUB | SLL | SLT | SLTU | XOR | SRL | SRA | OR | AND
  | ADDI | SLTI | SLTIU | XORI | ORI | ANDI | SLLI | SRLI | SRAI
  | LB | LH | LW | LBU | LHU
  | SB | SH | SW
  | BEQ | BNE | BLT | BGE | BLTU | BGEU
  | LUI | AUIPC
  | JAL | JALR
  | INVALID.

(** The numeric value of an enumerator, used by the range test
    [opcode >= LB && opcode <= LHU]. *)
Definition Opcode_value (o : Opcode) : Z :=
  match o with
  | ADD => 0 | SUB => 1 | SLL => 2 | SLT => 3 | SLTU => 4 | XOR => 5
  | SRL => 6 | SRA => 7 | OR => 8 | AND => 9
  | ADDI => 10 | SLTI => 11 | SLTIU => 12 | XORI => 13 | ORI => 14
  | ANDI => 15 | SLLI => 16 | SRLI => 17 | SRAI => 18
  | LB => 19 | LH => 20 | LW => 21 | LBU => 22 | LHU => 23
  | SB => 24 | SH => 25 | SW => 26
  | BEQ => 27 | BNE => 28 | BLT => 29 | BGE => 30 | BLTU => 31 | BGEU => 32
  | LUI => 33 | AUIPC => 34
  | JAL => 35 | JALR => 36
  | INVALID => 37
  end.

Definition Opcode_eqb (a b : Opcode) : bool := Opcode_value a =? Opcode_value b.

Definition Format_eqb (a b : InstructionFormat) : bool :=
  match a, b with
  | R_TYPE, R_TYPE | I_TYPE, I_TYPE | S_TYPE, S_TYPE
  | B_TYPE, B_TYPE | U_TYPE, U_TYPE | J_TYPE, J_TYPE => true
  | _, _ => false
  end.

Record Instruction := mkInstruction {
  raw : Z;
  opcode : Opcode;
  format : InstructionFormat;
  rs1 : Z;
  rs2 : Z;
  rd : Z;
  immediate : Z
}.

(** The default constructor [Instruction()]. *)
Definition Instruction_default : Instruction :=
  mkInstruction 0 INVALID R_TYPE (-1) (-1) (-1) 0.

Record ControlSignals := mkControlSignals {
  regWrite : bool;
  memRead : bool;
  memWrite : bool;
  memToReg : bool;
  aluSrc : bool;
  branch : bool;
  jump : bool;
  aluOp : Z
}.

Definition ControlSignals_default : ControlSignals :=
  mkControlSignals false false false false false false false 0.

Record ALUResult := mkALUResult {
  result : Z;
  zero : bool;
  negative : bool;
  overflow : bool
}.

Definition ALUResult_default : ALUResult := mkALUResult 0 false false false.

Record IF_ID_Register := mkIF_ID {
  ifid_pc : Z;
  ifid_instruction : Instruction;
  ifid_valid : bool
}.

Definition IF_ID_default : IF_ID_Register := mkIF_ID 0 Instruction_default false.

Record ID_EX_Register := mkID_EX {
  idex_pc : Z;
  idex_instruction : Instruction;
  idex_readData1 : Z;
  idex_readData2 : Z;
  idex_immediate : Z;
  idex_control : ControlSignals;
  idex_valid : bool
}.

Definition ID_EX_default : ID_EX_Register :=
  mkID_EX 0 Instruction_default 0 0 0 ControlSignals_default false.

Record EX_MEM_Register := mkEX_MEM {
  exmem_pc : Z;
  exmem_branchTarget : Z;
  exmem_instruction : Instruction;
  exmem_aluResult : ALUResult;
  exmem_readData2 : Z;
  exmem_control : ControlSignals;
  exmem_branchTaken : bool;
  exmem_valid : bool
}.

Definition EX_MEM_default : EX_MEM_Register :=
  mkEX_MEM 0 0 Instruction_default ALUResult_default 0 ControlSignals_default
           false false.

Record MEM_WB_Register := mkMEM_WB {
  memwb_pc : Z;
  memwb_instruction : Instruction;
  memwb_aluResult : Z;
  memwb_readData : Z;
  memwb_control : ControlSignals;
  memwb_valid : bool
}.

Definition MEM_WB_default : MEM_WB_Register :=
  mkMEM_WB 0 Instruction_default 0 0 ControlSignals_default false.

(** ** Storage *)

(** [InstructionMemory::readInstruction]: the word at [address / 4], or the
    all-zero word past the end of the vector. *)
Definition readInstruction (memory : list Z) (address : Z) : Z :=
  if address / 4 <? Z.of_nat (length memory)
  then default 0 (memory !! Z.to_nat (address / 4))
  else 0.

(** [RegisterFile]: an array of 32 [int32_t]. *)
Definition RegisterFile_init : list Z := replicate 32 0.

Definition RegisterFile_read (registers : list Z) (reg : Z) : Z :=
  if (0 <=? reg) && (reg <? 32)
  then default 0 (registers !! Z.to_nat reg)
  else 0.

Definition RegisterFile_write (registers : list Z) (reg value : Z) : list Z :=
  if (0 <? reg) && (reg <? 32)
  then <[Z.to_nat reg := value]> registers
  else registers.

(** [DataMemory]: a vector of bytes.  The guard is computed in [uint32_t], as
    in the source, so it wraps.  An index that passes the guard only through
    the wrap-around is outside the vector, which C++ leaves undefined; the
    model reads 0 there and writes nothing. *)
Definition DataMemory_init : list Z := replicate 1024 0.

Fixpoint DataMemory_read_loop (memory : list Z) (address : Z) (i n : nat) : Z :=
  match n with
  | O => 0
  | S n' =>
      Z.lor
        (Z.shiftl
           (default 0 (memory !! Z.to_nat (to_uint32 (address + Z.of_nat i))))
           (Z.of_nat i * 8))
        (DataMemory_read_loop memory address (S i) n')
  end.

Definition DataMemory_read (memory : list Z) (address : Z) (size : nat) : Z :=
  if to_uint32 (address + Z.of_nat size - 1) <? Z.of_nat (length memory)
  then to_int32 (DataMemory_read_loop memory address 0 size)
  else 0.

Fixpoint DataMemory_write_loop
    (memory : list Z) (address value : Z) (i n : nat) : list Z :=
  match n with
  | O => memory
  | S n' =>
      DataMemory_write_loop
        (<[Z.to_nat (to_uint32 (address + Z.of_nat i)) :=
             Z.land (Z.shiftr value (Z.of_nat i * 8)) 255]> memory)
        address value (S i) n'
  end.

Definition DataMemory_write
    (memory : list Z) (address value : Z) (size : nat) : list Z :=
  if to_uint32 (address + Z.of_nat size - 1) <? Z.of_nat (length memory)
  then DataMemory_write_loop memory address value 0 size
  else memory.

(** ** Decoder *)

(** The field extractions [(rawInst >> k) & m]. *)
Definition bits (rawInst k m : Z) : Z := Z.land (Z.shiftr rawInst k) m.

(** [if (imm & bit) imm |= mask;] *)
Definition signExtend (imm bit mask : Z) : Z :=
  if Z.land imm bit =? 0 then imm else or_assign imm mask.

(** The 12-bit immediate of the I forms: [rawInst >> 20], then sign
    extension from bit 11. *)
Definition immediate_I (rawInst : Z) : Z :=
  signExtend (to_int32 (Z.shiftr rawInst 20)) 2048 4294963200.

Definition immediate_S (rawInst : Z) : Z :=
  let imm := to_int32 (Z.shiftl (bits rawInst 25 127) 5) in
  let imm := or_assign imm (bits rawInst 7 31) in
  signExtend imm 2048 4294963200.

Definition immediate_B (rawInst : Z) : Z :=
  let imm := 0 in
  let imm := or_assign imm (Z.shiftl (bits rawInst 31 1) 12) in
  let imm := or_assign imm (Z.shiftl (bits rawInst 7 1) 11) in
  let imm := or_assign imm (Z.shiftl (bits rawInst 25 63) 5) in
  let imm := or_assign imm (Z.shiftl (bits rawInst 8 15) 1) in
  signExtend imm 4096 4294959104.

Definition immediate_U (rawInst : Z) : Z :=
  to_int32 (Z.land rawInst 4294963200).

Definition immediate_J (rawInst : Z) : Z :=
  let imm := 0 in
  let imm := or_assign imm (Z.shiftl (bits rawInst 31 1) 20) in
  let imm := or_assign imm (Z.shiftl (bits rawInst 12 255) 12) in
  let imm := or_assign imm (Z.shiftl (bits rawInst 20 1) 11) in
  let imm := or_assign imm (Z.shiftl (bits rawInst 21 1023) 1) in
  signExtend imm 1048576 4293918720.

(** [Processor::decodeInstruction] writes into the [Instruction] it is given
    by reference: a field that the selected case does not assign keeps the
    value it had before the call.  The second argument is that previous
    content. *)
Definition decodeInstruction (rawInst : Z) (inst : Instruction) : Instruction :=
  let opcodeField := Z.land rawInst 127 in
  let funct3 := bits rawInst 12 7 in
  let funct7 := bits rawInst 25 127 in
  let f_rd := bits rawInst 7 31 in
  let f_rs1 := bits rawInst 15 31 in
  let f_rs2 := bits rawInst 20 31 in
  if opcodeField =? 51 then (* 0x33, R-type *)
    let op :=
      if funct7 =? 0 then
        if funct3 =? 0 then ADD else if funct3 =? 1 then SLL
        else if funct3 =? 2 then SLT else if funct3 =? 3 then SLTU
        else if funct3 =? 4 then XOR else if funct3 =? 5 then SRL
        else if funct3 =? 6 then OR else if funct3 =? 7 then AND
        else INVALID
      else if funct7 =? 32 then
        if funct3 =? 0 then SUB else if funct3 =? 5 then SRA else INVALID
      else INVALID in
    mkInstruction rawInst op R_TYPE f_rs1 f_rs2 f_rd (immediate inst)
  else if opcodeField =? 19 then (* 0x13, I-type arithmetic *)
    let op :=
      if funct3 =? 0 then ADDI else if funct3 =? 2 then SLTI
      else if funct3 =? 3 then SLTIU else if funct3 =? 4 then XORI
      else if funct3 =? 6 then ORI else if funct3 =? 7 then ANDI
      else if funct3 =? 1 then SLLI
      else if funct3 =? 5 then
        if funct7 =? 0 then SRLI else if funct7 =? 32 then SRAI else INVALID
      else INVALID in
    mkInstruction rawInst op I_TYPE f_rs1 (rs2 inst) f_rd (immediate_I rawInst)
  else if opcodeField =? 3 then (* 0x03, loads *)
    let op :=
      if funct3 =? 0 then LB else if funct3 =? 1 then LH
      else if funct3 =? 2 then LW else if funct3 =? 4 then LBU
      else if funct3 =? 5 then LHU else INVALID in
    mkInstruction rawInst op I_TYPE f_rs1 (rs2 inst) f_rd (immediate_I rawInst)
  else if opcodeField =? 35 then (* 0x23, S-type *)
    let op :=
      if funct3 =? 0 then SB else if funct3 =? 1 then SH
      else if funct3 =? 2 then SW else INVALID in
    mkInstruction rawInst op S_TYPE f_rs1 f_rs2 (rd inst) (immediate_S rawInst)
  else if opcodeField =? 99 then (* 0x63, B-type *)
    let op :=
      if funct3 =? 0 then BEQ else if funct3 =? 1 then BNE
      else if funct3 =? 4 then BLT else if funct3 =? 5 then BGE
      else if funct3 =? 6 then BLTU else if funct3 =? 7 then BGEU
      else INVALID in
    mkInstruction rawInst op B_TYPE f_rs1 f_rs2 (rd inst) (immediate_B rawInst)
  else if opcodeField =? 55 then (* 0x37, LUI *)
    mkInstruction rawInst LUI U_TYPE (rs1 inst) (rs2 inst) f_rd
                  (immediate_U rawInst)
  else if opcodeField =? 23 then (* 0x17, AUIPC *)
    mkInstruction rawInst AUIPC U_TYPE (rs1 inst) (rs2 inst) f_rd
                  (immediate_U rawInst)
  else if opcodeField =? 111 then (* 0x6F, JAL *)
    mkInstruction rawInst JAL J_TYPE (rs1 inst) (rs2 inst) f_rd
                  (immediate_J rawInst)
  else if opcodeField =? 103 then (* 0x67, JALR *)
    mkInstruction rawInst JALR I_TYPE f_rs1 (rs2 inst) f_rd
                  (immediate_I rawInst)
  else
    mkInstruction rawInst INVALID (format inst) (rs1 inst) (rs2 inst) (rd inst)
                  (immediate inst).

(** ** Control unit *)

(** [Processor::setControlSignals] starts from the all-false default and
    switches on the format alone; the opcode is consulted only inside the
    I and U cases. *)
Definition setControlSignals (inst : Instruction) : ControlSignals :=
  match format inst with
  | R_TYPE => mkControlSignals true false false false false false false 2
  | I_TYPE =>
      if Opcode_eqb (opcode inst) JALR then
        mkControlSignals true false false false false false true 0
      else if (Opcode_value LB <=? Opcode_value (opcode inst))
              && (Opcode_value (opcode inst) <=? Opcode_value LHU) then
        mkControlSignals true true false true true false false 0
      else
        mkControlSignals true false false false true false false 3
  | S_TYPE => mkControlSignals false false true false true false false 0
  | B_TYPE => mkControlSignals false false false false false true false 1
  | U_TYPE =>
      if Opcode_eqb (opcode inst) AUIPC then
        mkControlSignals true false false false true false false 0
      else
        mkControlSignals true false false false true false false 4
  | J_TYPE => mkControlSignals true false false false false false true 0
  end.

(** ** Forwarding unit *)

Inductive ForwardSource := FROM_REG | FROM_EX_MEM | FROM_MEM_WB.

Record ForwardingUnit := mkForwardingUnit {
  forwardA : ForwardSource;
  forwardB : ForwardSource
}.

Definition ForwardingUnit_default : ForwardingUnit :=
  mkForwardingUnit FROM_REG FROM_REG.

(** The test repeated for each operand in [detectForwarding]. *)
Definition forwardFor
    (rs : Z) (exMem : EX_MEM_Register) (memWb : MEM_WB_Register)
  : ForwardSource :=
  if negb (rs =? 0) then
    if exmem_valid exMem && regWrite (exmem_control exMem)
       && negb (rd (exmem_instruction exMem) =? 0)
       && (rd (exmem_instruction exMem) =? rs)
    then FROM_EX_MEM
    else if memwb_valid memWb && regWrite (memwb_control memWb)
            && negb (rd (memwb_instruction memWb) =? 0)
            && (rd (memwb_instruction memWb) =? rs)
    then FROM_MEM_WB
    else FROM_REG
  else FROM_REG.

Definition detectForwarding
    (idEx : ID_EX_Register) (exMem : EX_MEM_Register) (memWb : MEM_WB_Register)
  : ForwardingUnit :=
  if negb (idex_valid idEx) then mkForwardingUnit FROM_REG FROM_REG
  else
    mkForwardingUnit
      (forwardFor (rs1 (idex_instruction idEx)) exMem memWb)
      (forwardFor (rs2 (idex_instruction idEx)) exMem memWb).

(** ** Hazard detection unit *)

Definition usesRs1 (i : Instruction) : bool :=
  negb (rs1 i =? 0)
  && (negb (Format_eqb (format i) U_TYPE) && negb (Format_eqb (format i) J_TYPE)).

Definition usesRs2 (i : Instruction) : bool :=
  negb (rs2 i =? 0)
  && (Format_eqb (format i) R_TYPE || Format_eqb (format i) B_TYPE
      || Format_eqb (format i) S_TYPE).

Definition isBranchOrJump (i : Instruction) : bool :=
  Format_eqb (format i) B_TYPE || Format_eqb (format i) J_TYPE
  || (Format_eqb (format i) I_TYPE && Opcode_eqb (opcode i) JALR).

(** [(usesRs1 && rs1 == rd) || (usesRs2 && rs2 == rd)] *)
Definition readsRegister (i : Instruction) (r : Z) : bool :=
  (usesRs1 i && (rs1 i =? r)) || (usesRs2 i && (rs2 i =? r)).

Definition detectHazardF
    (ifId : IF_ID_Register) (idEx : ID_EX_Register) (exMem : EX_MEM_Register)
    (memWb : MEM_WB_Register) (isForwarding isIFStage : bool) : bool :=
  if negb (ifid_valid ifId) then false
  else
    let i := ifid_instruction ifId in
    if isIFStage && negb (isBranchOrJump i) then false
    else if isForwarding then
      if idex_valid idEx && memRead (idex_control idEx)
         && negb (rd (idex_instruction idEx) =? 0)
         && readsRegister i (rd (idex_instruction idEx))
      then true
      else if isBranchOrJump i && memwb_valid memWb
              && memRead (memwb_control memWb)
              && negb (rd (memwb_instruction memWb) =? 0)
              && readsRegister i (rd (memwb_instruction memWb))
      then true
      else false
    else if idex_valid idEx && regWrite (idex_control idEx)
            && negb (rd (idex_instruction idEx) =? 0)
            && readsRegister i (rd (idex_instruction idEx))
    then true
    else if exmem_valid exMem && regWrite (exmem_control exMem)
            && negb (rd (exmem_instruction exMem) =? 0)
            && readsRegister i (rd (exmem_instruction exMem))
    then true
    else if memwb_valid memWb && regWrite (memwb_control memWb)
            && negb (rd (memwb_instruction memWb) =? 0)
            && readsRegister i (rd (memwb_instruction memWb))
            && negb isIFStage
    then true
    else false.

(** ** Processor state *)

Record Processor := mkProcessor {
  pc : Z;
  instMem : list Z;
  regFile : list Z;
  dataMem : list Z;
  forwardUnit : ForwardingUnit;
  ifId : IF_ID_Register;
  idEx : ID_EX_Register;
  exMem : EX_MEM_Register;
  memWb : MEM_WB_Register;
  clockCycle : Z;
  instructionsExecuted : Z;
  instructionTraces : list Z
}.

(** Assignments to single members of the processor object. *)

Definition set_pc (v : Z) (c : Processor) : Processor :=
  mkProcessor v (instMem c) (regFile c) (dataMem c) (forwardUnit c) (ifId c)
    (idEx c) (exMem c) (memWb c) (clockCycle c) (instructionsExecuted c)
    (instructionTraces c).

Definition set_regFile (v : list Z) (c : Processor) : Processor :=
  mkProcessor (pc c) (instMem c) v (dataMem c) (forwardUnit c) (ifId c)
    (idEx c) (exMem c) (memWb c) (clockCycle c) (instructionsExecuted c)
    (instructionTraces c).

Definition set_dataMem (v : list Z) (c : Processor) : Processor :=
  mkProcessor (pc c) (instMem c) (regFile c) v (forwardUnit c) (ifId c)
    (idEx c) (exMem c) (memWb c) (clockCycle c) (instructionsExecuted c)
    (instructionTraces c).

Definition set_forwardUnit (v : ForwardingUnit) (c : Processor) : Processor :=
  mkProcessor (pc c) (instMem c) (regFile c) (dataMem c) v (ifId c)
    (idEx c) (exMem c) (memWb c) (clockCycle c) (instructionsExecuted c)
    (instructionTraces c).

Definition set_ifId (v : IF_ID_Register) (c : Processor) : Processor :=
  mkProcessor (pc c) (instMem c) (regFile c) (dataMem c) (forwardUnit c) v
    (idEx c) (exMem c) (memWb c) (clockCycle c) (instructionsExecuted c)
    (instructionTraces c).

Definition set_idEx (v : ID_EX_Register) (c : Processor) : Processor :=
  mkProcessor (pc c) (instMem c) (regFile c) (dataMem c) (forwardUnit c)
    (ifId c) v (exMem c) (memWb c) (clockCycle c) (instructionsExecuted c)
    (instructionTraces c).

Definition set_exMem (v : EX_MEM_Register) (c : Processor) : Processor :=
  mkProcessor (pc c) (instMem c) (regFile c) (dataMem c) (forwardUnit c)
    (ifId c) (idEx c) v (memWb c) (clockCycle c) (instructionsExecuted c)
    (instructionTraces c).

Definition set_memWb (v : MEM_WB_Register) (c : Processor) : Processor :=
  mkProcessor (pc c) (instMem c) (regFile c) (dataMem c) (forwardUnit c)
    (ifId c) (idEx c) (exMem c) v (clockCycle c) (instructionsExecuted c)
    (instructionTraces c).

Definition set_clockCycle (v : Z) (c : Processor) : Processor :=
  mkProcessor (pc c) (instMem c) (regFile c) (dataMem c) (forwardUnit c)
    (ifId c) (idEx c) (exMem c) (memWb c) v (instructionsExecuted c)
    (instructionTraces c).

Definition set_instructionsExecuted (v : Z) (c : Processor) : Processor :=
  mkProcessor (pc c) (instMem c) (regFile c) (dataMem c) (forwardUnit c)
    (ifId c) (idEx c) (exMem c) (memWb c) (clockCycle c) v
    (instructionTraces c).

Definition set_instructionTraces (v : list Z) (c : Processor) : Processor :=
  mkProcessor (pc c) (instMem c) (regFile c) (dataMem c) (forwardUnit c)
    (ifId c) (idEx c) (exMem c) (memWb c) (clockCycle c)
    (instructionsExecuted c) v.

(** [reg.valid = false;] leaves every other field of the register as it is. *)

Definition ifid_invalidate (r : IF_ID_Register) : IF_ID_Register :=
  mkIF_ID (ifid_pc r) (ifid_instruction r) false.

Definition idex_invalidate (r : ID_EX_Register) : ID_EX_Register :=
  mkID_EX (idex_pc r) (idex_instruction r) (idex_readData1 r)
    (idex_readData2 r) (idex_immediate r) (idex_control r) false.

Definition exmem_invalidate (r : EX_MEM_Register) : EX_MEM_Register :=
  mkEX_MEM (exmem_pc r) (exmem_branchTarget r) (exmem_instruction r)
    (exmem_aluResult r) (exmem_readData2 r) (exmem_control r)
    (exmem_branchTaken r) false.

Definition memwb_invalidate (r : MEM_WB_Register) : MEM_WB_Register :=
  mkMEM_WB (memwb_pc r) (memwb_instruction r) (memwb_aluResult r)
    (memwb_readData r) (memwb_control r) false.

(** The constructor [Processor()] followed by the loading of the program
    image, as [main] does. *)
Definition Processor_new (program : list Z) : Processor :=
  mkProcessor 0 program RegisterFile_init DataMemory_init
    ForwardingUnit_default IF_ID_default ID_EX_default EX_MEM_default
    MEM_WB_default 0 0 [].

(** [Processor::reset]: the program counter, the counters and the four
    pipeline registers; the register file and the data memory are kept. *)
Definition reset (c : Processor) : Processor :=
  mkProcessor 0 (instMem c) (regFile c) (dataMem c) (forwardUnit c)
    IF_ID_default ID_EX_default EX_MEM_default MEM_WB_default 0 0
    (instructionTraces c).

(** ** Trace table *)

(** The search loop [for (i...) if (instructionTraces[i].address == a)]. *)
Definition isTracked (traces : list Z) (a : Z) : bool :=
  existsb (Z.eqb a) traces.

(** [initInstructionTrace]: append an entry unless the address has one. *)
Definition initInstructionTrace (traces : list Z) (a : Z) : list Z :=
  if isTracked traces a then traces else traces ++ [a].

(** The loop at the head of [executePipeline]: one entry per program word,
    at the address [i * 4] computed in [uint32_t]. *)
Definition initialTraces (size : nat) : list Z :=
  fold_left
    (fun traces i => initInstructionTrace traces (to_uint32 (Z.of_nat i * 4)))
    (seq 0 size) [].

(** ** Writeback *)

Definition writeBackStage (cpu : Processor) : Processor :=
  let w := memWb cpu in
  if negb (memwb_valid w) then cpu
  else
    let cpu :=
      if regWrite (memwb_control w) && negb (rd (memwb_instruction w) =? 0)
      then
        let writeData :=
          if memToReg (memwb_control w) then memwb_readData w
          else memwb_aluResult w in
        set_regFile
          (RegisterFile_write (regFile cpu) (rd (memwb_instruction w)) writeData)
          cpu
      else cpu in
    set_instructionsExecuted (instructionsExecuted cpu + 1) cpu.

(** ** Memory *)

Definition loadValue (memory : list Z) (op : Opcode) (address : Z) : Z :=
  match op with
  | LB =>
      let v := DataMemory_read memory address 1 in
      if Z.land v 128 =? 0 then v else or_assign v 4294967040
  | LH =>
      let v := DataMemory_read memory address 2 in
      if Z.land v 32768 =? 0 then v else or_assign v 4294901760
  | LW => DataMemory_read memory address 4
  | LBU => Z.land (DataMemory_read memory address 1) 255
  | LHU => Z.land (DataMemory_read memory address 2) 65535
  | _ => 0
  end.

Definition storeValue (memory : list Z) (op : Opcode) (address value : Z)
  : list Z :=
  match op with
  | SB => DataMemory_write memory address value 1
  | SH => DataMemory_write memory address value 2
  | SW => DataMemory_write memory address value 4
  | _ => memory
  end.

Definition memoryStage (cpu : Processor) : Processor :=
  let x := exMem cpu in
  if negb (exmem_valid x) then set_memWb (memwb_invalidate (memWb cpu)) cpu
  else
    let address := to_uint32 (result (exmem_aluResult x)) in
    let readData :=
      if memRead (exmem_control x)
      then loadValue (dataMem cpu) (opcode (exmem_instruction x)) address
      else 0 in
    let memory :=
      if memWrite (exmem_control x)
      then storeValue (dataMem cpu) (opcode (exmem_instruction x)) address
             (exmem_readData2 x)
      else dataMem cpu in
    set_memWb
      (mkMEM_WB (exmem_pc x) (exmem_instruction x) (result (exmem_aluResult x))
         readData (exmem_control x) true)
      (set_dataMem memory cpu).

(** ** Execute *)

(** The three-way [switch] on a forwarding selector; [latched] is the value
    the [default] branch uses. *)
Definition forwardedValue
    (src : ForwardSource) (exMem : EX_MEM_Register) (memWb : MEM_WB_Register)
    (latched : Z) : Z :=
  match src with
  | FROM_EX_MEM => result (exmem_aluResult exMem)
  | FROM_MEM_WB =>
      if memToReg (memwb_control memWb) then memwb_readData memWb
      else memwb_aluResult memWb
  | FROM_REG => latched
  end.

(** The first three assignments of [executeStage]: the program counter, the
    control signals and the second register value of ID/EX are copied into
    EX/MEM before anything else is read from it. *)
Definition executeLatch (cpu : Processor) : EX_MEM_Register :=
  let x := exMem cpu in
  mkEX_MEM (idex_pc (idEx cpu)) (exmem_branchTarget x) (exmem_instruction x)
    (exmem_aluResult x) (idex_readData2 (idEx cpu)) (idex_control (idEx cpu))
    (exmem_branchTaken x) (exmem_valid x).

(** The selectors as [executeStage] obtains them: [detectForwarding] is
    called on the EX/MEM register after [executeLatch]. *)
Definition executeForwarding (cpu : Processor) : ForwardingUnit :=
  detectForwarding (idEx cpu) (executeLatch cpu) (memWb cpu).

Definition aluInput1 (cpu : Processor) (isForwarding : bool) : Z :=
  if isForwarding then
    forwardedValue (forwardA (executeForwarding cpu)) (executeLatch cpu)
      (memWb cpu) (idex_readData1 (idEx cpu))
  else idex_readData1 (idEx cpu).

Definition aluInput2 (cpu : Processor) (isForwarding : bool) : Z :=
  if isForwarding then
    if aluSrc (idex_control (idEx cpu)) then idex_immediate (idEx cpu)
    else
      forwardedValue (forwardB (executeForwarding cpu)) (executeLatch cpu)
        (memWb cpu) (idex_readData2 (idEx cpu))
  else if aluSrc (idex_control (idEx cpu)) then idex_immediate (idEx cpu)
  else idex_readData2 (idEx cpu).

(** The value latched as store data. *)
Definition executeReadData2 (cpu : Processor) (isForwarding : bool) : Z :=
  if isForwarding && memWrite (idex_control (idEx cpu)) then
    forwardedValue (forwardB (executeForwarding cpu)) (executeLatch cpu)
      (memWb cpu) (idex_readData2 (idEx cpu))
  else idex_readData2 (idEx cpu).

Definition b2z (b : bool) : Z := if b then 1 else 0.

(** The [switch] on the opcode.  Signed overflow is taken to wrap. *)
Definition alu (op : Opcode) (a b pcv imm : Z) : Z :=
  match op with
  | ADD | ADDI | LB | LH | LW | LBU | LHU | SB | SH | SW | JALR =>
      to_int32 (a + b)
  | SUB => to_int32 (a - b)
  | AND | ANDI => Z.land a b
  | OR | ORI => Z.lor a b
  | XOR | XORI => Z.lxor a b
  | SLL | SLLI => to_int32 (Z.shiftl a (Z.land b 31))
  | SRL | SRLI => to_int32 (Z.shiftr (to_uint32 a) (Z.land b 31))
  | SRA | SRAI => Z.shiftr a (Z.land b 31)
  | SLT | SLTI | BLT | BGE => b2z (a <? b)
  | SLTU | SLTIU | BLTU | BGEU => b2z (to_uint32 a <? to_uint32 b)
  | BEQ => b2z (a =? b)
  | BNE => b2z (negb (a =? b))
  | JAL => to_int32 (to_uint32 (pcv + 4))
  | LUI => imm
  | AUIPC => to_int32 (to_uint32 (pcv + imm))
  | INVALID => 0
  end.

Definition executeStage (cpu : Processor) (isForwarding : bool) : Processor :=
  let d := idEx cpu in
  if negb (idex_valid d) then set_exMem (exmem_invalidate (exMem cpu)) cpu
  else
    let cpu' :=
      if isForwarding then set_forwardUnit (executeForwarding cpu) cpu
      else cpu in
    let r :=
      alu (opcode (idex_instruction d)) (aluInput1 cpu isForwarding)
        (aluInput2 cpu isForwarding) (idex_pc d) (idex_immediate d) in
    set_exMem
      (mkEX_MEM (idex_pc d) (exmem_branchTarget (exMem cpu))
         (idex_instruction d)
         (mkALUResult r (r =? 0) (r <? 0) (overflow (exmem_aluResult (exMem cpu))))
         (executeReadData2 cpu isForwarding) (idex_control d)
         (exmem_branchTaken (exMem cpu)) true)
      cpu'.

(** ** Decode *)

(** The outcome of a conditional branch on its two operand values. *)
Definition conditionMet (op : Opcode) (rs1Value rs2Value : Z) : bool :=
  match op with
  | BEQ => rs1Value =? rs2Value
  | BNE => negb (rs1Value =? rs2Value)
  | BLT => rs1Value <? rs2Value
  | BGE => rs1Value >=? rs2Value
  | BLTU => to_uint32 rs1Value <? to_uint32 rs2Value
  | BGEU => to_uint32 rs1Value >=? to_uint32 rs2Value
  | _ => false
  end.

(** Under forwarding a branch or jump in decode waits for any producer of
    one of its register fields that is still in ID/EX. *)
Definition producerInIdEx (rs : Z) (idEx : ID_EX_Register) : bool :=
  negb (rs =? 0) && idex_valid idEx && regWrite (idex_control idEx)
  && negb (rd (idex_instruction idEx) =? 0)
  && (rd (idex_instruction idEx) =? rs).

Definition needsStall (cpu : Processor) : bool :=
  producerInIdEx (rs1 (ifid_instruction (ifId cpu))) (idEx cpu)
  || producerInIdEx (rs2 (ifid_instruction (ifId cpu))) (idEx cpu).

(** The operand value a branch or jump compares: forwarded from EX/MEM or
    MEM/WB, or read from the register file; 0 for register field 0. *)
Definition branchOperand (cpu : Processor) (isForwarding : bool) (rs : Z) : Z :=
  if isForwarding then
    if negb (rs =? 0) then
      forwardedValue (forwardFor rs (exMem cpu) (memWb cpu)) (exMem cpu)
        (memWb cpu) (RegisterFile_read (regFile cpu) rs)
    else 0
  else RegisterFile_read (regFile cpu) rs.

(** The locals [rs1Value] and [rs2Value] of the decode stage. *)
Definition rs1Value (cpu : Processor) (isForwarding : bool) : Z :=
  branchOperand cpu isForwarding (rs1 (ifid_instruction (ifId cpu))).

Definition rs2Value (cpu : Processor) (isForwarding : bool) : Z :=
  branchOperand cpu isForwarding (rs2 (ifid_instruction (ifId cpu))).

(** Resolution of a branch or jump: (branchTaken, branchTarget). *)
Definition resolveBranch (ifId : IF_ID_Register) (rs1Value rs2Value : Z)
  : bool * Z :=
  let i := ifid_instruction ifId in
  if Format_eqb (format i) J_TYPE then
    (true, to_uint32 (ifid_pc ifId + immediate i))
  else if Opcode_eqb (opcode i) JALR then
    (true, to_uint32 (Z.land (to_int32 (rs1Value + immediate i)) (-2)))
  else if Format_eqb (format i) B_TYPE then
    if conditionMet (opcode i) rs1Value rs2Value
    then (true, to_uint32 (ifid_pc ifId + immediate i))
    else (false, 0)
  else (false, 0).

(** [instructionDecodeStage].  The reference parameters [stall],
    [branchTaken] and [branchTarget] are returned next to the state. *)
Definition instructionDecodeStage
    (cpu : Processor) (stall : bool) (isForwarding : bool)
  : Processor * bool * bool * Z :=
  let f := ifId cpu in
  let i := ifid_instruction f in
  if negb (ifid_valid f) then
    (set_idEx (idex_invalidate (idEx cpu)) cpu, stall, false, 0)
  else if detectHazardF f (idEx cpu) (exMem cpu) (memWb cpu) isForwarding false
  then
    let nextPC := pc cpu in
    let traces :=
      if negb (isTracked (instructionTraces cpu) nextPC)
         && (nextPC / 4 <? Z.of_nat (length (instMem cpu)))
      then initInstructionTrace (instructionTraces cpu) nextPC
      else instructionTraces cpu in
    (set_idEx (idex_invalidate (idEx cpu)) (set_instructionTraces traces cpu),
     true, false, 0)
  else if isBranchOrJump i && isForwarding && needsStall cpu then
    (set_idEx (idex_invalidate (idEx cpu)) cpu, true, false, 0)
  else
    let '(branchTaken, branchTarget) :=
      if isBranchOrJump i then
        resolveBranch f (rs1Value cpu isForwarding) (rs2Value cpu isForwarding)
      else (false, 0) in
    let control := setControlSignals i in
    let control :=
      if branchTaken then
        mkControlSignals (regWrite control) (memRead control)
          (memWrite control) (memToReg control) (aluSrc control) false false
          (aluOp control)
      else control in
    (set_idEx
       (mkID_EX (ifid_pc f) i (RegisterFile_read (regFile cpu) (rs1 i))
          (RegisterFile_read (regFile cpu) (rs2 i)) (immediate i) control true)
       cpu,
     false, branchTaken, branchTarget).

(** ** Fetch *)

Definition instructionFetchStage
    (cpu : Processor) (stall : bool) (isForwarding : bool) : Processor * bool :=
  if stall then (cpu, stall)
  else
    let instruction := readInstruction (instMem cpu) (pc cpu) in
    if negb (isTracked (instructionTraces cpu) (pc cpu)) then
      (set_ifId (ifid_invalidate (ifId cpu)) cpu, stall)
    else
      let f :=
        mkIF_ID (pc cpu)
          (decodeInstruction instruction (ifid_instruction (ifId cpu))) true in
      let cpu := set_pc (to_uint32 (pc cpu + 4)) (set_ifId f cpu) in
      let ifStall :=
        detectHazardF f (idEx cpu) (exMem cpu) (memWb cpu) isForwarding true in
      (cpu, if ifStall then true else stall).

(** ** Driver *)

(** The redirect that the driver derives from EX/MEM after the stages. *)
Definition exMemRedirect (cpu : Processor) : bool :=
  exmem_valid (exMem cpu)
  && ((branch (exmem_control (exMem cpu)) && exmem_branchTaken (exMem cpu))
      || jump (exmem_control (exMem cpu))).

Definition redirect (target : Z) (cpu : Processor) : Processor :=
  set_ifId (ifid_invalidate (ifId cpu)) (set_pc target cpu).

(** One iteration of the loop of [executePipeline], up to and including the
    redirect that the decode stage asked for. *)
Definition cycleStages (isForwarding : bool) (cpu : Processor) : Processor :=
  let cpu := set_clockCycle (clockCycle cpu + 1) cpu in
  let cpu := writeBackStage cpu in
  let cpu := memoryStage cpu in
  let cpu := executeStage cpu isForwarding in
  let '(cpu, stall, branchTaken, branchTarget) :=
    instructionDecodeStage cpu false isForwarding in
  let '(cpu, _) := instructionFetchStage cpu stall isForwarding in
  if branchTaken then redirect branchTarget cpu else cpu.

(** The whole iteration: the stages, then the test on EX/MEM. *)
Definition cycle (isForwarding : bool) (cpu : Processor) : Processor :=
  let cpu := cycleStages isForwarding cpu in
  if exMemRedirect cpu then redirect (exmem_branchTarget (exMem cpu)) cpu
  else cpu.

(** The state in which the loop starts. *)
Definition startPipeline (cpu : Processor) : Processor :=
  set_pc 0
    (set_instructionTraces (initialTraces (length (instMem cpu))) (reset cpu)).

(** [executePipeline(cpu, cycles, isForwarding)]; a negative [cycles] runs
    no iteration. *)
Definition executePipeline (cpu : Processor) (cycles : Z) (isForwarding : bool)
  : Processor :=
  Nat.iter (Z.to_nat cycles) (cycle isForwarding) (startPipeline cpu).

(** The state handed from stage to stage inside one iteration. *)
Definition afterWriteBack (cpu : Processor) : Processor :=
  writeBackStage (set_clockCycle (clockCycle cpu + 1) cpu).

Definition afterMemory (cpu : Processor) : Processor :=
  memoryStage (afterWriteBack cpu).

Definition afterExecute (isForwarding : bool) (cpu : Processor) : Processor :=
  executeStage (afterMemory cpu) isForwarding.

(** The condition under which the driver would redirect from EX/MEM can
    only arise from these four fields. *)
Definition exMemBranchFieldsUnused (c : Processor) : Prop :=
  jump (idex_control (idEx c)) = false
  /\ jump (exmem_control (exMem c)) = false
  /\ exmem_branchTaken (exMem c) = false
  /\ exmem_branchTarget (exMem c) = 0.

(** ** Comparison semantics of the conditional branches *)

Definition int32_range (v : Z) : Prop := - 2 ^ 31 <= v < 2 ^ 31.

(** The unsigned reading of a 32-bit two's-complement value. *)
Definition unsigned32 (v : Z) : Z := if v <? 0 then v + 2 ^ 32 else v.

Definition isConditionalBranch (op : Opcode) : bool :=
  match op with
  | BEQ | BNE | BLT | BGE | BLTU | BGEU => true
  | _ => false
  end.

(** When each conditional branch is to be taken, as the specification
    words it: equality, signed order, unsigned order. *)
Definition branchSemantics (op : Opcode) (a b : Z) : Prop :=
  match op with
  | BEQ => a = b
  | BNE => a <> b
  | BLT => a < b
  | BGE => a >= b
  | BLTU => unsigned32 a < unsigned32 b
  | BGEU => unsigned32 a >= unsigned32 b
  | _ => False
  end.

(** A processor whose IF/ID register holds the given word at the given
    address and whose other registers are as constructed. *)
Definition processorDecoding (address rawInst : Z) : Processor :=
  set_ifId
    (mkIF_ID address (decodeInstruction rawInst Instruction_default) true)
    (Processor_new [rawInst]).

(** ** The trace table and the program image *)

(** Every address in the trace table lies inside instruction memory. *)
Definition tracesInProgram (c : Processor) : Prop :=
  Forall (fun a => a / 4 < Z.of_nat (length (instMem c)))
    (instructionTraces c).

(** The state in which the driver calls the fetch stage, in the iteration
    that starts from [c]. *)
Definition beforeFetch (isForwarding : bool) (c : Processor) : Processor :=
  (instructionDecodeStage (afterExecute isForwarding c) false isForwarding).1.1.1.

(** ** Decode-stage stall under forwarding *)

(** The stall flag the driver receives from the decode stage. *)
Definition decodeStall (cpu : Processor) (isForwarding : bool) : bool :=
  (instructionDecodeStage cpu false isForwarding).1.1.2.

(** The load-use hazard: ID/EX holds a valid load whose non-zero
    destination is a register the IF/ID instruction uses. *)
Definition loadUseHazard (cpu : Processor) : bool :=
  idex_valid (idEx cpu) && memRead (idex_control (idEx cpu))
  && negb (rd (idex_instruction (idEx cpu)) =? 0)
  && readsRegister (ifid_instruction (ifId cpu))
       (rd (idex_instruction (idEx cpu))).

(** The same test against a load in MEM/WB. *)
Definition loadInMemWb (cpu : Processor) : bool :=
  memwb_valid (memWb cpu) && memRead (memwb_control (memWb cpu))
  && negb (rd (memwb_instruction (memWb cpu)) =? 0)
  && readsRegister (ifid_instruction (ifId cpu))
       (rd (memwb_instruction (memWb cpu))).

(** ** Drained pipeline *)

(** Nothing is in flight and nothing more will be fetched. *)
Definition drained (c : Processor) : Prop :=
  ifid_valid (ifId c) = false
  /\ idex_valid (idEx c) = false
  /\ exmem_valid (exMem c) = false
  /\ memwb_valid (memWb c) = false
  /\ isTracked (instructionTraces c) (pc c) = false.

(** ** Example programs *)

(** [addi x1,x0,5; addi x2,x0,10; add x3,x1,x2] *)
Definition programAddChain : list Z := [0x00500093; 0x00A00113; 0x002081B3].

(** [addi x1,x0,5; beq x1,x0,8] *)
Definition programAddBranch : list Z := [0x00500093; 0x00008463].

(** [addi x5,x0,12; nop; nop; nop; jalr x1,12(x5); nop; nop; nop], the
    [jalr] at address 16. *)
Definition programJalr : list Z :=
  [0x00C00293; 0x00000013; 0x00000013; 0x00000013;
   0x00C280E7; 0x00000013; 0x00000013; 0x00000013].

(** [jal x1,8; nop; nop], the [jal] at address 0. *)
Definition programJal : list Z := [0x008000EF; 0x00000013; 0x00000013].

(** [addi x1,x0,5] followed by the word 0x020000B3, which has the R-type
    opcode field, destination field 1 and a funct7 (0x01) that selects no
    operation. *)
Definition programInvalid : list Z := [0x00500093; 0x020000B3].

(** [addi x1,x0,5; sw x1,4(x0); addi x2,x1,0] *)
Definition programStoreThenUse : list Z :=
  [0x00500093; 0x00102223; 0x00008113].

(** ** States inside example runs *)

(** [programAddBranch], third cycle, at the call of the decode stage. *)
Definition stateAddBranch : Processor :=
  afterExecute true (executePipeline (Processor_new programAddBranch) 2 true).

(** [programStoreThenUse], fifth cycle, at the call of the execute stage. *)
Definition stateStoreThenUse : Processor :=
  afterMemory (executePipeline (Processor_new programStoreThenUse) 4 true).

(** [addi x1,x0,5], fourth cycle, at the call of the fetch stage. *)
Definition stateFetchPastEnd : Processor :=
  beforeFetch true (executePipeline (Processor_new [0x00500093]) 3 true).

(** x1 = -1, x2 = 1 and [blt x1,x2,8] from address 20 in IF/ID. *)
Definition stateBranchDecode : Processor :=
  set_regFile (<[2%nat := 1]> (<[1%nat := -1]> RegisterFile_init))
    (processorDecoding 20 0x0020C463).

(** ** Readings of bit fields *)

(** The low [n] bits of [v] read as a two's-complement number. *)
Definition signedLow (n v : Z) : Z := (v + 2 ^ (n - 1)) mod 2 ^ n - 2 ^ (n - 1).

(** Byte [k] of a value, as [DataMemory::write] stores it:
    [(value >> (k * 8)) & 0xFF]. *)
Definition byteOf (value : Z) (k : nat) : Z :=
  Z.land (Z.shiftr value (Z.of_nat k * 8)) 255.

(** ** Groups of opcodes and of decoder cases *)

(** The format under which the enumeration lists each opcode. *)
Definition Opcode_format (op : Opcode) : option InstructionFormat :=
  match op with
  | ADD | SUB | SLL | SLT | SLTU | XOR | SRL | SRA | OR | AND => Some R_TYPE
  | ADDI | SLTI | SLTIU | XORI | ORI | ANDI | SLLI | SRLI | SRAI
  | LB | LH | LW | LBU | LHU | JALR => Some I_TYPE
  | SB | SH | SW => Some S_TYPE
  | BEQ | BNE | BLT | BGE | BLTU | BGEU => Some B_TYPE
  | LUI | AUIPC => Some U_TYPE
  | JAL => Some J_TYPE
  | INVALID => None
  end.

(** Which register fields each case of the decoder assigns, by the value of
    the opcode field [rawInst & 0x7F]. *)
Definition assignsRd (opcodeField : Z) : bool :=
  existsb (Z.eqb opcodeField) [51; 19; 3; 55; 23; 111; 103].

Definition assignsRs1 (opcodeField : Z) : bool :=
  existsb (Z.eqb opcodeField) [51; 19; 3; 35; 99; 103].

Definition assignsRs2 (opcodeField : Z) : bool :=
  existsb (Z.eqb opcodeField) [51; 35; 99].

(** Register indices that the register file can be asked for: a field of
    the word, or the sentinel -1 of a default-constructed instruction. *)
Definition registerFieldsInRange (i : Instruction) : Prop :=
  -1 <= rs1 i <= 31 /\ -1 <= rs2 i <= 31 /\ -1 <= rd i <= 31.

(** Opcode classes by which the control unit and the memory stage
    distinguish instructions. *)
Definition isLoad (op : Opcode) : bool :=
  match op with LB | LH | LW | LBU | LHU => true | _ => false end.

Definition isStore (op : Opcode) : bool :=
  match op with SB | SH | SW => true | _ => false end.

Definition isJump (op : Opcode) : bool :=
  match op with JAL | JALR => true | _ => false end.

Definition isImmediateArithmetic (op : Opcode) : bool :=
  match op with
  | ADDI | SLTI | SLTIU | XORI | ORI | ANDI | SLLI | SRLI | SRAI => true
  | _ => false
  end.

Definition isUpperImmediate (op : Opcode) : bool :=
  match op with LUI | AUIPC => true | _ => false end.

(** ** Invariants of the driver *)

(** Every word of the program has a trace entry. *)
Definition programTracked (c : Processor) : Prop :=
  forall i : nat, (i < length (instMem c))%nat ->
    isTracked (instructionTraces c) (to_uint32 (Z.of_nat i * 4)) = true.

(** The instruction objects of the four pipeline registers hold register
    indices the register file can be asked for. *)
Definition latchedFieldsInRange (c : Processor) : Prop :=
  registerFieldsInRange (ifid_instruction (ifId c))
  /\ registerFieldsInRange (idex_instruction (idEx c))
  /\ registerFieldsInRange (exmem_instruction (exMem c))
  /\ registerFieldsInRange (memwb_instruction (memWb c)).

(** A latched load is a latched register write. *)
Definition loadsWriteRegisters (c : Processor) : Prop :=
  (memRead (idex_control (idEx c)) = true ->
   regWrite (idex_control (idEx c)) = true)
  /\ (memRead (exmem_control (exMem c)) = true ->
      regWrite (exmem_control (exMem c)) = true)
  /\ (memRead (memwb_control (memWb c)) = true ->
      regWrite (memwb_control (memWb c)) = true).

(** ** A load followed by its use *)

(** [lw x1,0(x0); add x2,x1,x1] *)
Definition programLoadUse : list Z := [0x00002083; 0x00108133].

(** ** Trace recorder: mnemonics and stage labels *)

(** The table [opcodeToString]; [at] throws for a key that is absent, which
    is the case of INVALID only. *)
Definition opcodeToString (op : Opcode) : option string :=
  match op with
  | ADD => Some "add" | SUB => Some "sub" | SLL => Some "sll"
  | SLT => Some "slt" | SLTU => Some "sltu" | XOR => Some "xor"
  | SRL => Some "srl" | SRA => Some "sra" | OR => Some "or"
  | AND => Some "and"
  | ADDI => Some "addi" | SLTI => Some "slti" | SLTIU => Some "sltiu"
  | XORI => Some "xori" | ORI => Some "ori" | ANDI => Some "andi"
  | SLLI => Some "slli" | SRLI => Some "srli" | SRAI => Some "srai"
  | LB => Some "lb" | LH => Some "lh" | LW => Some "lw"
  | LBU => Some "lbu" | LHU => Some "lhu"
  | SB => Some "sb" | SH => Some "sh" | SW => Some "sw"
  | BEQ => Some "beq" | BNE => Some "bne" | BLT => Some "blt"
  | BGE => Some "bge" | BLTU => Some "bgeu" | BGEU => Some "bgeu"
  | LUI => Some "lui" | AUIPC => Some "auipc"
  | JAL => Some "jal" | JALR => Some "jalr"
  | INVALID => None
  end%string.

(** [Processor::trackInstructionStage] on the stage labels of the trace
    entries, one row per entry: the row is padded with "-" up to the cycle
    and the label is stored at the cycle.  The cycle is [clockCycle - 1] at
    every call and so never negative. *)
Definition trackInstructionStage
    (stages : list (list string)) (instructionIndex : Z) (cycle : nat)
    (stage : string) : list (list string) :=
  if (0 <=? instructionIndex)
     && (instructionIndex <? Z.of_nat (length stages))
  then
    match stages !! Z.to_nat instructionIndex with
    | Some row =>
        let row :=
          if (length row <=? cycle)%nat
          then row ++ replicate (cycle + 1 - length row) "-"%string
          else row in
        <[Z.to_nat instructionIndex := <[cycle := stage]> row]> stages
    | None => stages
    end
  else stages.

(** * Properties *)

(** ** What each stage leaves alone *)

(** Every state the driver reaches is obtained from the start state by
    iterating [cycle]; a property that holds at the start and is kept by
    one iteration holds throughout. *)
Lemma executePipeline_invariant (P : Processor -> Prop) isForwarding cpu :
  P (startPipeline cpu) ->
  (forall c, P c -> P (cycle isForwarding c)) ->
  forall cycles, P (executePipeline cpu cycles isForwarding).
Proof.
  intros Hstart Hstep cycles. unfold executePipeline.
  induction (Z.to_nat cycles) as [|n IH]; simpl; auto.
Qed.

Ltac stage_cases :=
  repeat match goal with
    | |- context [if ?b then _ else _] => destruct b eqn:?
    | |- context [let '(_, _) := ?p in _] => destruct p eqn:?
    end.

Section Frames.
Variable cpu : Processor.
Variable isForwarding : bool.

Lemma writeBackStage_frame :
  let c := writeBackStage cpu in
  pc c = pc cpu /\ instMem c = instMem cpu /\ dataMem c = dataMem cpu
  /\ ifId c = ifId cpu /\ idEx c = idEx cpu /\ exMem c = exMem cpu
  /\ memWb c = memWb cpu /\ instructionTraces c = instructionTraces cpu.
Proof. unfold writeBackStage. stage_cases; simpl; auto 10. Qed.

Lemma memoryStage_frame :
  let c := memoryStage cpu in
  pc c = pc cpu /\ instMem c = instMem cpu /\ regFile c = regFile cpu
  /\ ifId c = ifId cpu /\ idEx c = idEx cpu /\ exMem c = exMem cpu
  /\ instructionTraces c = instructionTraces cpu
  /\ instructionsExecuted c = instructionsExecuted cpu.
Proof. unfold memoryStage. stage_cases; simpl; auto 10. Qed.

Lemma executeStage_frame :
  let c := executeStage cpu isForwarding in
  pc c = pc cpu /\ instMem c = instMem cpu /\ regFile c = regFile cpu
  /\ dataMem c = dataMem cpu /\ ifId c = ifId cpu /\ idEx c = idEx cpu
  /\ memWb c = memWb cpu /\ instructionTraces c = instructionTraces cpu
  /\ instructionsExecuted c = instructionsExecuted cpu.
Proof. unfold executeStage. stage_cases; simpl; auto 10. Qed.

Lemma instructionDecodeStage_frame stall :
  let c := (instructionDecodeStage cpu stall isForwarding).1.1.1 in
  pc c = pc cpu /\ instMem c = instMem cpu /\ regFile c = regFile cpu
  /\ dataMem c = dataMem cpu /\ ifId c = ifId cpu /\ exMem c = exMem cpu
  /\ memWb c = memWb cpu
  /\ instructionsExecuted c = instructionsExecuted cpu.
Proof. unfold instructionDecodeStage. stage_cases; simpl; auto 10. Qed.

Lemma instructionFetchStage_frame stall :
  let c := (instructionFetchStage cpu stall isForwarding).1 in
  instMem c = instMem cpu /\ regFile c = regFile cpu
  /\ dataMem c = dataMem cpu /\ idEx c = idEx cpu /\ exMem c = exMem cpu
  /\ memWb c = memWb cpu /\ instructionTraces c = instructionTraces cpu
  /\ instructionsExecuted c = instructionsExecuted cpu.
Proof. unfold instructionFetchStage. stage_cases; simpl; auto 10. Qed.
End Frames.

Lemma redirect_frame target c :
  instMem (redirect target c) = instMem c
  /\ regFile (redirect target c) = regFile c
  /\ dataMem (redirect target c) = dataMem c
  /\ idEx (redirect target c) = idEx c
  /\ exMem (redirect target c) = exMem c
  /\ memWb (redirect target c) = memWb c
  /\ instructionTraces (redirect target c) = instructionTraces c
  /\ instructionsExecuted (redirect target c) = instructionsExecuted c.
Proof. unfold redirect; simpl; auto 10. Qed.

(** One iteration, seen from the register file, the data memory and the
    retired-instruction counter: only writeback touches the first and the
    third, only the memory stage the second. *)
Lemma cycle_storage isForwarding c :
  regFile (cycle isForwarding c) = regFile (afterWriteBack c)
  /\ dataMem (cycle isForwarding c) = dataMem (afterMemory c)
  /\ instMem (cycle isForwarding c) = instMem c
  /\ instructionsExecuted (cycle isForwarding c)
     = instructionsExecuted (afterWriteBack c).
Proof.
  unfold cycle, cycleStages.
  fold (afterWriteBack c). fold (afterMemory c).
  fold (afterExecute isForwarding c).
  destruct (instructionDecodeStage _ _ _) as [[[c1 st] bt] tg] eqn:Hd.
  destruct (instructionFetchStage c1 st isForwarding) as [c2 st'] eqn:Hf.
  pose proof (instructionDecodeStage_frame (afterExecute isForwarding c)
                isForwarding false) as D.
  rewrite Hd in D; simpl in D.
  pose proof (instructionFetchStage_frame c1 isForwarding st) as F.
  rewrite Hf in F; simpl in F.
  pose proof (executeStage_frame (afterMemory c) isForwarding) as E.
  pose proof (memoryStage_frame (afterWriteBack c)) as M.
  pose proof (writeBackStage_frame (set_clockCycle (clockCycle c + 1) c)) as W.
  fold (afterExecute isForwarding c) in E. fold (afterMemory c) in M.
  fold (afterWriteBack c) in W. simpl in E, M, W.
  destruct D as (_ & D1 & D2 & D3 & _ & _ & _ & D4).
  destruct F as (F1 & F2 & F3 & _ & _ & _ & _ & F4).
  destruct E as (_ & E1 & E2 & E3 & _ & _ & _ & _ & E4).
  destruct M as (_ & M1 & M2 & _ & _ & _ & _ & M4).
  destruct W as (_ & W1 & _).
  assert (regFile c2 = regFile (afterWriteBack c)) as R by congruence.
  assert (dataMem c2 = dataMem (afterMemory c)) as Dm by congruence.
  assert (instMem c2 = instMem c) as Im by congruence.
  assert (instructionsExecuted c2 = instructionsExecuted (afterWriteBack c))
    as Ie by congruence.
  repeat match goal with
    | |- context [if ?b then _ else _] => destruct b
    end;
    repeat match goal with
      | |- context [redirect ?t ?x] =>
          let H := fresh in
          pose proof (redirect_frame t x) as H;
          destruct H as (-> & -> & -> & _ & _ & _ & _ & ->)
      end; auto.
Qed.

(** ** The retired-instruction counter *)

(** C10.  A writeback step adds exactly 1 to the retired-instruction counter
    when MEM/WB holds a valid entry and nothing when it holds a bubble,
    whatever the entry is (a store, a branch or an INVALID instruction is
    counted like any other).  The counter is an [int] that starts at 0 and
    grows by at most one per cycle of an [int] cycle count, so it is taken
    unbounded here. *)
Theorem writeBackStage_counts_retired (cpu : Processor) :
  instructionsExecuted (writeBackStage cpu)
  = instructionsExecuted cpu + b2z (memwb_valid (memWb cpu)).
Proof.
  unfold writeBackStage, b2z.
  destruct (memwb_valid (memWb cpu)); simpl; [|lia].
  destruct (regWrite _ && _); reflexivity.
Qed.

(** ** Register 0 *)

Lemma RegisterFile_write_zero (registers : list Z) (value : Z) :
  RegisterFile_write registers 0 value = registers.
Proof. reflexivity. Qed.

Lemma RegisterFile_write_slot0 (registers : list Z) (reg value : Z) :
  RegisterFile_write registers reg value !! 0%nat = registers !! 0%nat.
Proof.
  unfold RegisterFile_write.
  destruct (0 <? reg) eqn:Hpos; simpl; [|reflexivity].
  destruct (reg <? 32); [|reflexivity].
  apply list_lookup_insert_ne. apply Z.ltb_lt in Hpos. lia.
Qed.

Lemma writeBackStage_slot0 (cpu : Processor) :
  regFile (writeBackStage cpu) !! 0%nat = regFile cpu !! 0%nat.
Proof.
  unfold writeBackStage.
  destruct (memwb_valid (memWb cpu)); simpl; [|reflexivity].
  destruct (regWrite _ && _); simpl; [|reflexivity].
  apply RegisterFile_write_slot0.
Qed.

Lemma cycle_slot0 isForwarding (c : Processor) :
  regFile (cycle isForwarding c) !! 0%nat = regFile c !! 0%nat.
Proof.
  destruct (cycle_storage isForwarding c) as (-> & _).
  unfold afterWriteBack. now rewrite writeBackStage_slot0.
Qed.

(** C9.  In every state reached by running any program for any number of
    cycles, with or without forwarding, slot 0 of the register file holds 0
    and reading register 0 yields 0; a write addressed to register 0 leaves
    the register file as it is, and no writeback changes slot 0. *)
Theorem register_zero_invariant
    (program : list Z) (cycles : Z) (isForwarding : bool) :
  let cpu := executePipeline (Processor_new program) cycles isForwarding in
  regFile cpu !! 0%nat = Some 0
  /\ RegisterFile_read (regFile cpu) 0 = 0
  /\ (forall registers value,
        RegisterFile_write registers 0 value = registers)
  /\ (forall c, regFile (writeBackStage c) !! 0%nat = regFile c !! 0%nat).
Proof.
  intros cpu.
  assert (regFile cpu !! 0%nat = Some 0) as H0.
  { subst cpu. apply executePipeline_invariant.
    - reflexivity.
    - intros c Hc. now rewrite cycle_slot0. }
  split; [exact H0|]. split.
  - change (RegisterFile_read (regFile cpu) 0)
      with (default 0 (regFile cpu !! 0%nat)).
    now rewrite H0.
  - split; [exact RegisterFile_write_zero | exact writeBackStage_slot0].
Qed.

(** ** The branch fields of EX/MEM *)

(** Whenever the control unit sets [jump], decode resolves the instruction
    as taken, and so clears the signal again before latching it. *)
Lemma jump_is_resolved_taken (f : IF_ID_Register) (v1 v2 : Z) :
  jump (setControlSignals (ifid_instruction f)) = true ->
  isBranchOrJump (ifid_instruction f) = true
  /\ (resolveBranch f v1 v2).1 = true.
Proof.
  unfold setControlSignals, isBranchOrJump, resolveBranch.
  destruct (format (ifid_instruction f));
    destruct (Opcode_eqb (opcode (ifid_instruction f)) JALR) eqn:HJ;
    simpl; try discriminate; auto.
  - destruct (_ && _); discriminate.
  - destruct (Opcode_eqb _ AUIPC); discriminate.
  - destruct (Opcode_eqb _ AUIPC); discriminate.
Qed.

Lemma instructionDecodeStage_jump c stall isForwarding :
  jump (idex_control (idEx c)) = false ->
  jump (idex_control (idEx (instructionDecodeStage c stall isForwarding).1.1.1))
  = false.
Proof.
  intros Hj. unfold instructionDecodeStage.
  destruct (negb (ifid_valid (ifId c))); [exact Hj|].
  destruct (detectHazardF _ _ _ _ _ _); [exact Hj|].
  destruct (_ && _ && needsStall c); [exact Hj|].
  destruct (isBranchOrJump (ifid_instruction (ifId c))) eqn:Hb.
  - destruct (resolveBranch _ _ _) as [bt tg] eqn:Hr.
    destruct bt; simpl; [reflexivity|].
    destruct (jump (setControlSignals (ifid_instruction (ifId c)))) eqn:Hs;
      [|reflexivity].
    eapply jump_is_resolved_taken in Hs as [_ Ht].
    rewrite Hr in Ht. discriminate Ht.
  - simpl.
    destruct (jump (setControlSignals (ifid_instruction (ifId c)))) eqn:Hs;
      [|reflexivity].
    eapply (jump_is_resolved_taken _ 0 0) in Hs as [Hb' _]. congruence.
Qed.

Lemma executeStage_branch_fields c isForwarding :
  let c' := executeStage c isForwarding in
  exmem_branchTaken (exMem c') = exmem_branchTaken (exMem c)
  /\ exmem_branchTarget (exMem c') = exmem_branchTarget (exMem c)
  /\ (jump (idex_control (idEx c)) = false ->
      jump (exmem_control (exMem c)) = false ->
      jump (exmem_control (exMem c')) = false).
Proof.
  unfold executeStage.
  destruct (negb (idex_valid (idEx c))); simpl; auto.
Qed.

Lemma cycleStages_branch_fields isForwarding c :
  exMemBranchFieldsUnused c ->
  exMemBranchFieldsUnused (cycleStages isForwarding c).
Proof.
  intros (Hd & Hx & Ht & Hg).
  unfold cycleStages.
  fold (afterWriteBack c). fold (afterMemory c).
  fold (afterExecute isForwarding c).
  pose proof (writeBackStage_frame (set_clockCycle (clockCycle c + 1) c)) as W.
  pose proof (memoryStage_frame (afterWriteBack c)) as M.
  pose proof (executeStage_frame (afterMemory c) isForwarding) as E.
  pose proof (executeStage_branch_fields (afterMemory c) isForwarding) as B.
  fold (afterWriteBack c) in W. fold (afterMemory c) in M.
  fold (afterExecute isForwarding c) in E, B. simpl in W, M, E, B.
  destruct W as (_ & _ & _ & _ & W1 & W2 & _).
  destruct M as (_ & _ & _ & _ & M1 & M2 & _).
  destruct E as (_ & _ & _ & _ & _ & E1 & _).
  destruct B as (B1 & B2 & B3).
  simpl in W1, W2.
  assert (jump (idex_control (idEx (afterExecute isForwarding c))) = false)
    as Hd' by (rewrite E1, M1, W1; exact Hd).
  assert (jump (exmem_control (exMem (afterExecute isForwarding c))) = false)
    as Hx'.
  { apply B3; [rewrite M1, W1; exact Hd | rewrite M2, W2; exact Hx]. }
  rewrite M2, W2 in B1, B2.
  pose proof (instructionDecodeStage_jump _ false isForwarding Hd') as Dj.
  pose proof (instructionDecodeStage_frame (afterExecute isForwarding c)
                isForwarding false) as D.
  destruct (instructionDecodeStage _ _ _) as [[[c1 st] bt] tg].
  simpl in Dj, D. destruct D as (_ & _ & _ & _ & _ & D1 & _).
  pose proof (instructionFetchStage_frame c1 isForwarding st) as F.
  destruct (instructionFetchStage c1 st isForwarding) as [c2 st'].
  simpl in F. destruct F as (_ & _ & _ & F1 & F2 & _).
  assert (exMemBranchFieldsUnused c2) as I2.
  { unfold exMemBranchFieldsUnused. rewrite F1, F2, D1. repeat split;
      congruence. }
  destruct bt; [|exact I2].
  unfold exMemBranchFieldsUnused.
  destruct (redirect_frame tg c2) as (_ & _ & _ & -> & -> & _). exact I2.
Qed.

Lemma exMemRedirect_unused c :
  exMemBranchFieldsUnused c -> exMemRedirect c = false.
Proof.
  intros (_ & Hx & Ht & _). unfold exMemRedirect. rewrite Hx, Ht.
  destruct (exmem_valid (exMem c)), (branch (exmem_control (exMem c)));
    reflexivity.
Qed.

Lemma cycle_branch_fields isForwarding c :
  exMemBranchFieldsUnused c ->
  cycle isForwarding c = cycleStages isForwarding c
  /\ exMemBranchFieldsUnused (cycle isForwarding c).
Proof.
  intros I. apply (cycleStages_branch_fields isForwarding) in I.
  unfold cycle. rewrite (exMemRedirect_unused _ I). auto.
Qed.

(** C6.  In every state the driver reaches, from any processor object, for
    any cycle count and either forwarding setting, the EX/MEM fields
    [branchTaken] and [branchTarget] still hold the values [reset] gave them
    (false and 0), no latched control word has [jump] set, and so the
    driver's test on EX/MEM fails in the next iteration: that iteration is
    exactly its stages followed by the redirect decode asked for. *)
Theorem exMem_never_redirects
    (cpu : Processor) (cycles : Z) (isForwarding : bool) :
  let c := executePipeline cpu cycles isForwarding in
  exmem_branchTaken (exMem c) = false
  /\ exmem_branchTarget (exMem c) = 0
  /\ exMemRedirect c = false
  /\ exMemRedirect (cycleStages isForwarding c) = false
  /\ cycle isForwarding c = cycleStages isForwarding c.
Proof.
  intros c.
  assert (exMemBranchFieldsUnused c) as I.
  { subst c. apply executePipeline_invariant.
    - repeat split.
    - intros s Hs. now apply cycle_branch_fields. }
  pose proof I as (_ & _ & Ht & Hg).
  repeat split; auto using exMemRedirect_unused.
  - apply exMemRedirect_unused. now apply cycleStages_branch_fields.
  - now apply cycle_branch_fields.
Qed.

(** ** Conditional branches *)

Lemma to_uint32_unsigned32 (v : Z) :
  int32_range v -> to_uint32 v = unsigned32 v.
Proof.
  unfold int32_range, to_uint32, unsigned32.
  change (2 ^ 31) with 2147483648. change (2 ^ 32) with 4294967296.
  intros Hv. destruct (v <? 0) eqn:Hneg.
  - apply Z.ltb_lt in Hneg. symmetry. apply Z.mod_unique with (q := -1); lia.
  - apply Z.ltb_ge in Hneg. apply Z.mod_small. lia.
Qed.

Lemma conditionMet_semantics (op : Opcode) (a b : Z) :
  isConditionalBranch op = true -> int32_range a -> int32_range b ->
  conditionMet op a b = true <-> branchSemantics op a b.
Proof.
  intros Hop Ha Hb.
  destruct op; try discriminate Hop; simpl;
    rewrite ?(to_uint32_unsigned32 a Ha), ?(to_uint32_unsigned32 b Hb).
  - apply Z.eqb_eq.
  - rewrite negb_true_iff. apply Z.eqb_neq.
  - apply Z.ltb_lt.
  - rewrite Z.geb_le. lia.
  - apply Z.ltb_lt.
  - rewrite Z.geb_le. lia.
Qed.

Lemma resolveBranch_conditional (f : IF_ID_Register) (v1 v2 : Z) :
  format (ifid_instruction f) = B_TYPE ->
  isConditionalBranch (opcode (ifid_instruction f)) = true ->
  resolveBranch f v1 v2
  = if conditionMet (opcode (ifid_instruction f)) v1 v2
    then (true, to_uint32 (ifid_pc f + immediate (ifid_instruction f)))
    else (false, 0).
Proof.
  intros Hf Hop. unfold resolveBranch. rewrite Hf. simpl.
  destruct (opcode (ifid_instruction f)); try discriminate Hop; reflexivity.
Qed.

(** C7.  A conditional branch that decode resolves (valid IF/ID entry, no
    stall) on the operand values [rs1Value] and [rs2Value] is reported taken
    exactly when its comparison holds: equality for BEQ, inequality for BNE,
    signed order for BLT and BGE, unsigned order for BLTU and BGEU; when
    taken, the target is the branch's address plus its immediate, in 32-bit
    arithmetic.  For the operands -1 and 1, BLT is taken and BLTU is not. *)
Theorem conditional_branch_resolution
    (cpu cpu' : Processor) (isForwarding taken : bool) (target : Z) :
  ifid_valid (ifId cpu) = true ->
  format (ifid_instruction (ifId cpu)) = B_TYPE ->
  isConditionalBranch (opcode (ifid_instruction (ifId cpu))) = true ->
  int32_range (rs1Value cpu isForwarding) ->
  int32_range (rs2Value cpu isForwarding) ->
  instructionDecodeStage cpu false isForwarding = (cpu', false, taken, target) ->
  (taken = true
   <-> branchSemantics (opcode (ifid_instruction (ifId cpu)))
         (rs1Value cpu isForwarding) (rs2Value cpu isForwarding))
  /\ (taken = true ->
      target
      = to_uint32 (ifid_pc (ifId cpu) + immediate (ifid_instruction (ifId cpu))))
  /\ conditionMet BLT (-1) 1 = true
  /\ conditionMet BLTU (-1) 1 = false.
Proof.
  intros Hvalid Hfmt Hop Hr1 Hr2 Hdec.
  unfold instructionDecodeStage in Hdec.
  rewrite Hvalid in Hdec. simpl in Hdec.
  destruct (detectHazardF _ _ _ _ _ _); [discriminate Hdec|].
  assert (isBranchOrJump (ifid_instruction (ifId cpu)) = true) as Hb
    by (unfold isBranchOrJump; now rewrite Hfmt).
  rewrite Hb in Hdec. simpl in Hdec.
  destruct (isForwarding && needsStall cpu); [discriminate Hdec|].
  rewrite (resolveBranch_conditional (ifId cpu) _ _ Hfmt Hop) in Hdec.
  pose proof (conditionMet_semantics _ _ _ Hop Hr1 Hr2) as Hsem.
  destruct (conditionMet _ _ _); injection Hdec as _ <- <-.
  - split; [|split; [reflexivity | split; reflexivity]].
    split; [intros _; now apply Hsem | reflexivity].
  - split; [|split; [discriminate | split; reflexivity]].
    split; [discriminate|]. intros H. apply Hsem in H. discriminate H.
Qed.

Lemma conditional_branch_resolution_witness :
  (true = true
   <-> branchSemantics BLT (rs1Value stateBranchDecode false)
         (rs2Value stateBranchDecode false))
  /\ rs1Value stateBranchDecode false = -1
  /\ rs2Value stateBranchDecode false = 1
  /\ (true = true -> 28 = to_uint32 (20 + 8)).
Proof.
  assert (ifid_valid (ifId stateBranchDecode) = true) as Hv
    by (vm_compute; reflexivity).
  assert (format (ifid_instruction (ifId stateBranchDecode)) = B_TYPE) as Hf
    by (vm_compute; reflexivity).
  assert (isConditionalBranch (opcode (ifid_instruction (ifId stateBranchDecode)))
          = true) as Ho by (vm_compute; reflexivity).
  assert (int32_range (rs1Value stateBranchDecode false)) as R1
    by (vm_compute; split; [discriminate | reflexivity]).
  assert (int32_range (rs2Value stateBranchDecode false)) as R2
    by (vm_compute; split; [discriminate | reflexivity]).
  assert (instructionDecodeStage stateBranchDecode false false
          = ((instructionDecodeStage stateBranchDecode false false).1.1.1,
             false, true, 28)) as Hd by (vm_compute; reflexivity).
  destruct (conditional_branch_resolution stateBranchDecode _ false true 28
              Hv Hf Ho R1 R2 Hd) as (H1 & H2 & _).
  split; [exact H1|]. split; [vm_compute; reflexivity|].
  split; [vm_compute; reflexivity | exact H2].
Defined.

(** ** Fetching past the end of the program *)

Lemma initInstructionTrace_Forall (P : Z -> Prop) traces a :
  Forall P traces -> P a -> Forall P (initInstructionTrace traces a).
Proof.
  intros Ht Ha. unfold initInstructionTrace.
  destruct (isTracked traces a); [exact Ht|].
  apply Forall_app. split; [exact Ht | repeat constructor; exact Ha].
Qed.

Lemma word_address_in_program (i size : nat) :
  (i < size)%nat -> to_uint32 (Z.of_nat i * 4) / 4 < Z.of_nat size.
Proof.
  intros Hi. unfold to_uint32. change (2 ^ 32) with 4294967296.
  assert (0 <= (Z.of_nat i * 4) mod 4294967296 <= Z.of_nat i * 4) as [H0 H1].
  { split; [apply Z.mod_pos_bound; lia | apply Z.mod_le; lia]. }
  apply Z.div_lt_upper_bound; lia.
Qed.

Lemma initialTraces_in_program (size : nat) :
  Forall (fun a => a / 4 < Z.of_nat size) (initialTraces size).
Proof.
  unfold initialTraces.
  assert (forall l acc,
             Forall (fun i => (i < size)%nat) l ->
             Forall (fun a => a / 4 < Z.of_nat size) acc ->
             Forall (fun a => a / 4 < Z.of_nat size)
               (fold_left
                  (fun traces i =>
                     initInstructionTrace traces (to_uint32 (Z.of_nat i * 4)))
                  l acc)) as Hgen.
  { induction l as [|i l IH]; intros acc Hl Hacc; simpl; [exact Hacc|].
    inversion Hl; subst. apply IH; [assumption|].
    apply initInstructionTrace_Forall; [exact Hacc|].
    now apply word_address_in_program. }
  apply Hgen; [|constructor].
  apply Forall_forall. intros i Hi. apply elem_of_seq in Hi. lia.
Qed.

Lemma tracesInProgram_same c c' :
  instMem c' = instMem c -> instructionTraces c' = instructionTraces c ->
  tracesInProgram c -> tracesInProgram c'.
Proof. unfold tracesInProgram. intros -> ->. auto. Qed.

Lemma instructionDecodeStage_traces c stall isForwarding :
  tracesInProgram c ->
  tracesInProgram (instructionDecodeStage c stall isForwarding).1.1.1.
Proof.
  intros Ht. unfold instructionDecodeStage.
  destruct (negb (ifid_valid (ifId c))); [exact Ht|].
  destruct (detectHazardF _ _ _ _ _ _).
  - destruct (negb (isTracked _ _)); simpl; [|exact Ht].
    destruct (pc c / 4 <? Z.of_nat (length (instMem c))) eqn:Hin;
      [|exact Ht].
    unfold tracesInProgram; simpl.
    apply initInstructionTrace_Forall; [exact Ht | now apply Z.ltb_lt].
  - destruct (_ && _ && needsStall c); [exact Ht|].
    destruct (if isBranchOrJump _ then _ else _); exact Ht.
Qed.

Lemma afterExecute_traces isForwarding c :
  tracesInProgram c -> tracesInProgram (afterExecute isForwarding c).
Proof.
  intros Ht.
  pose proof (writeBackStage_frame (set_clockCycle (clockCycle c + 1) c)) as W.
  pose proof (memoryStage_frame (afterWriteBack c)) as M.
  pose proof (executeStage_frame (afterMemory c) isForwarding) as E.
  simpl in W, M, E.
  destruct W as (_ & W1 & _ & _ & _ & _ & _ & W2).
  destruct M as (_ & M1 & _ & _ & _ & _ & M2 & _).
  destruct E as (_ & E1 & _ & _ & _ & _ & _ & E2 & _).
  eapply tracesInProgram_same; [exact E1 | exact E2 |].
  eapply tracesInProgram_same; [exact M1 | exact M2 |].
  eapply tracesInProgram_same; [exact W1 | exact W2 |]. exact Ht.
Qed.

Lemma beforeFetch_traces isForwarding c :
  tracesInProgram c -> tracesInProgram (beforeFetch isForwarding c).
Proof.
  intros Ht. apply instructionDecodeStage_traces.
  now apply afterExecute_traces.
Qed.

Lemma cycle_traces isForwarding c :
  tracesInProgram c -> tracesInProgram (cycle isForwarding c).
Proof.
  intros Ht. apply (beforeFetch_traces isForwarding) in Ht.
  unfold beforeFetch in Ht. unfold cycle, cycleStages.
  fold (afterWriteBack c). fold (afterMemory c).
  fold (afterExecute isForwarding c).
  destruct (instructionDecodeStage _ _ _) as [[[c1 st] bt] tg].
  simpl in Ht.
  pose proof (instructionFetchStage_frame c1 isForwarding st) as F.
  destruct (instructionFetchStage c1 st isForwarding) as [c2 st'].
  simpl in F. destruct F as (F1 & _ & _ & _ & _ & _ & F2 & _).
  assert (tracesInProgram c2) as H2
    by (eapply tracesInProgram_same; eauto).
  assert (forall t x, tracesInProgram x -> tracesInProgram (redirect t x))
    as Hred by (intros t x Hx; exact Hx).
  destruct bt; [apply (Hred tg) in H2|];
    destruct (exMemRedirect _); auto.
Qed.

Lemma executePipeline_traces cpu cycles isForwarding :
  tracesInProgram (executePipeline cpu cycles isForwarding).
Proof.
  apply executePipeline_invariant.
  - unfold tracesInProgram; simpl. apply initialTraces_in_program.
  - intros c. apply cycle_traces.
Qed.

Lemma untracked_past_end c :
  tracesInProgram c -> Z.of_nat (length (instMem c)) <= pc c / 4 ->
  isTracked (instructionTraces c) (pc c) = false.
Proof.
  intros Ht Hpc. unfold isTracked.
  destruct (existsb _ _) eqn:Hex; [|reflexivity].
  apply existsb_exists in Hex as (a & Hin & Heq).
  apply Z.eqb_eq in Heq. subst a.
  unfold tracesInProgram in Ht. rewrite Forall_forall in Ht.
  apply list_elem_of_In, Ht in Hin. lia.
Qed.

Lemma decode_zero_word (inst : Instruction) :
  opcode (decodeInstruction 0 inst) = INVALID.
Proof. reflexivity. Qed.

(** C8.  Whenever the driver calls the fetch stage with a program counter
    past the end of instruction memory, the instruction memory returns the
    all-zero word; that word decodes to INVALID whatever the decoder finds in
    its output argument; and the fetch stage, when it is not held by a stall,
    only marks IF/ID as a bubble: program counter, register file, data memory
    and the other pipeline registers are as before and the stall flag stays
    clear, so the run goes on. *)
Theorem fetch_past_end
    (cpu c : Processor) (cycles : Z) (isForwarding : bool) :
  c = beforeFetch isForwarding (executePipeline cpu cycles isForwarding) ->
  Z.of_nat (length (instMem c)) <= pc c / 4 ->
  readInstruction (instMem c) (pc c) = 0
  /\ (forall inst, opcode (decodeInstruction 0 inst) = INVALID)
  /\ instructionFetchStage c false isForwarding
     = (set_ifId (ifid_invalidate (ifId c)) c, false).
Proof.
  intros Hc Hpc.
  assert (tracesInProgram c) as Ht
    by (subst c; apply beforeFetch_traces, executePipeline_traces).
  split; [|split].
  - unfold readInstruction.
    destruct (pc c / 4 <? Z.of_nat (length (instMem c))) eqn:Hlt;
      [|reflexivity].
    apply Z.ltb_lt in Hlt. lia.
  - exact decode_zero_word.
  - unfold instructionFetchStage.
    now rewrite (untracked_past_end c Ht Hpc).
Qed.

Lemma fetch_past_end_witness :
  pc stateFetchPastEnd = 4
  /\ length (instMem stateFetchPastEnd) = 1%nat
  /\ readInstruction (instMem stateFetchPastEnd) (pc stateFetchPastEnd) = 0
  /\ instructionFetchStage stateFetchPastEnd false true
     = (set_ifId (ifid_invalidate (ifId stateFetchPastEnd)) stateFetchPastEnd,
        false).
Proof.
  split; [vm_compute; reflexivity|]. split; [vm_compute; reflexivity|].
  unfold stateFetchPastEnd.
  set (c := beforeFetch true (executePipeline (Processor_new [5243027]) 3 true)).
  assert (Z.of_nat (length (instMem c)) <= pc c / 4) as Hpc
    by (vm_compute; discriminate).
  destruct (fetch_past_end (Processor_new [5243027]) c 3 true
              (eq_refl c) Hpc) as (H1 & _ & H3).
  split; [exact H1 | exact H3].
Defined.

(** ** Decode-stage stall under forwarding *)

(** C4, as stated, fails.  In the third cycle of [programAddBranch], at the
    call of the decode stage ([stateAddBranch]), the branch in IF/ID reads x1, the [addi] that writes x1 is in ID/EX with
    [memRead] unset, there is no load-use hazard, and yet decode raises the
    stall. *)
Lemma decode_stall_without_load :
  ifid_valid (ifId stateAddBranch) = true
  /\ opcode (ifid_instruction (ifId stateAddBranch)) = BEQ
  /\ opcode (idex_instruction (idEx stateAddBranch)) = ADDI
  /\ memRead (idex_control (idEx stateAddBranch)) = false
  /\ loadUseHazard stateAddBranch = false
  /\ decodeStall stateAddBranch true = true.
Proof. vm_compute. repeat split. Qed.

(** C4, amended.  With forwarding enabled the decode stage raises the stall
    exactly when IF/ID is valid and one of three conditions holds: the
    load-use hazard against ID/EX; or the IF/ID instruction is a branch or
    jump (format B or J, or JALR) and a valid load in MEM/WB has a non-zero
    destination that it uses; or it is a branch or jump and ID/EX holds a
    valid producer with [regWrite] set whose non-zero destination equals its
    non-zero rs1 or rs2 field. *)
Theorem decode_stall_forwarding (cpu : Processor) :
  decodeStall cpu true
  = ifid_valid (ifId cpu)
    && (loadUseHazard cpu
        || (isBranchOrJump (ifid_instruction (ifId cpu)) && loadInMemWb cpu)
        || (isBranchOrJump (ifid_instruction (ifId cpu)) && needsStall cpu)).
Proof.
  unfold decodeStall, instructionDecodeStage, detectHazardF, loadUseHazard,
    loadInMemWb.
  destruct (ifid_valid (ifId cpu)); simpl; [|reflexivity].
  destruct (idex_valid (idEx cpu) && memRead (idex_control (idEx cpu))
            && negb (rd (idex_instruction (idEx cpu)) =? 0)
            && readsRegister (ifid_instruction (ifId cpu))
                 (rd (idex_instruction (idEx cpu)))); simpl; [reflexivity|].
  destruct (isBranchOrJump (ifid_instruction (ifId cpu))) eqn:Hb; simpl.
  - destruct (memwb_valid (memWb cpu) && memRead (memwb_control (memWb cpu))
              && negb (rd (memwb_instruction (memWb cpu)) =? 0)
              && readsRegister (ifid_instruction (ifId cpu))
                   (rd (memwb_instruction (memWb cpu)))); simpl;
      [reflexivity|].
    destruct (needsStall cpu); simpl; [reflexivity|].
    destruct (resolveBranch _ _ _); reflexivity.
  - reflexivity.
Qed.

(** ** Runs past the point where the pipeline has drained *)

Lemma cycle_drained isForwarding c :
  drained c ->
  drained (cycle isForwarding c)
  /\ regFile (cycle isForwarding c) = regFile c
  /\ dataMem (cycle isForwarding c) = dataMem c.
Proof.
  intros (H1 & H2 & H3 & H4 & H5).
  unfold cycle, cycleStages, writeBackStage. simpl. rewrite H4. simpl.
  unfold memoryStage. simpl. rewrite H3. simpl.
  unfold executeStage. simpl. rewrite H2. simpl.
  unfold instructionDecodeStage. simpl. rewrite H1. simpl.
  unfold instructionFetchStage. simpl. rewrite H5. simpl.
  unfold exMemRedirect. simpl. rewrite ?H3. simpl.
  unfold drained. simpl. repeat split; auto.
Qed.

Lemma iter_cycle_drained isForwarding (k : nat) c :
  drained c ->
  drained (Nat.iter k (cycle isForwarding) c)
  /\ regFile (Nat.iter k (cycle isForwarding) c) = regFile c
  /\ dataMem (Nat.iter k (cycle isForwarding) c) = dataMem c.
Proof.
  intros Hd. induction k as [|k (IH1 & IH2 & IH3)]; simpl; [auto|].
  destruct (cycle_drained isForwarding _ IH1) as (D1 & D2 & D3).
  split; [exact D1 | split; congruence].
Qed.

Lemma executePipeline_past_drain cpu (cycles : Z) (k : nat) isForwarding :
  0 <= cycles ->
  drained (executePipeline cpu cycles isForwarding) ->
  regFile (executePipeline cpu (cycles + Z.of_nat k) isForwarding)
  = regFile (executePipeline cpu cycles isForwarding)
  /\ dataMem (executePipeline cpu (cycles + Z.of_nat k) isForwarding)
     = dataMem (executePipeline cpu cycles isForwarding).
Proof.
  intros Hc Hd. unfold executePipeline in *.
  replace (Z.to_nat (cycles + Z.of_nat k)) with (k + Z.to_nat cycles)%nat
    by lia.
  rewrite Nat.iter_add.
  destruct (iter_cycle_drained isForwarding k _ Hd) as (_ & R & M).
  auto.
Qed.

(** ** Forwarding against no forwarding *)

(** C1.  [programAddChain] is [addi x1,x0,5; addi x2,x0,10; add x3,x1,x2].
    After 9 cycles both runs have drained.  From then on, for every cycle
    count, the run with forwarding holds 10 in x3 and the run without
    forwarding holds 15: the [add] takes x2 from EX/MEM but x1 from the value
    latched at decode, which predates the writeback of the first [addi],
    because MEM/WB has already been overwritten by the memory stage with the
    same instruction that EX/MEM holds. *)
Theorem forwarding_changes_final_registers (k : nat) :
  let cycles := 9 + Z.of_nat k in
  drained (executePipeline (Processor_new programAddChain) 9 true)
  /\ drained (executePipeline (Processor_new programAddChain) 9 false)
  /\ regFile (executePipeline (Processor_new programAddChain) cycles true)
       !! 3%nat = Some 10
  /\ regFile (executePipeline (Processor_new programAddChain) cycles false)
       !! 3%nat = Some 15.
Proof.
  intros cycles.
  assert (drained (executePipeline (Processor_new programAddChain) 9 true))
    as D1 by (vm_compute; repeat split).
  assert (drained (executePipeline (Processor_new programAddChain) 9 false))
    as D2 by (vm_compute; repeat split).
  split; [exact D1|]. split; [exact D2|].
  subst cycles.
  destruct (executePipeline_past_drain _ 9 k true ltac:(lia) D1) as (-> & _).
  destruct (executePipeline_past_drain _ 9 k false ltac:(lia) D2) as (-> & _).
  split; vm_compute; reflexivity.
Qed.

(** ** Return address of jumps *)

(** C2.  In [programJalr] the instruction [jalr x1,12(x5)] sits at address
    16 and x5 holds 12.  Once the run has drained, with or without
    forwarding, x1 holds 12 and not 20: the execute stage computes the result
    of JALR as the sum of its two ALU inputs, the case it shares with ADD,
    while JAL has a case of its own that yields the address of the next
    instruction (x1 = 4 for the [jal] at address 0 of [programJal]). *)
Theorem jalr_commits_operand_sum (k : nat) (isForwarding : bool) :
  let jalr := decodeInstruction 0x00C280E7 Instruction_default in
  opcode jalr = JALR /\ rd jalr = 1 /\ rs1 jalr = 5 /\ immediate jalr = 12
  /\ readInstruction programJalr 16 = 0x00C280E7
  /\ regFile (executePipeline (Processor_new programJalr)
                (13 + Z.of_nat k) isForwarding) !! 1%nat = Some 12
  /\ regFile (executePipeline (Processor_new programJal) 7 isForwarding)
       !! 1%nat = Some 4
  /\ (forall a b pcv imm, alu JALR a b pcv imm = to_int32 (a + b))
  /\ (forall a b pcv imm, alu JAL a b pcv imm = to_int32 (to_uint32 (pcv + 4))).
Proof.
  intros jalr.
  assert (drained (executePipeline (Processor_new programJalr) 13 isForwarding))
    as D by (destruct isForwarding; vm_compute; repeat split).
  destruct (executePipeline_past_drain _ 13 k isForwarding ltac:(lia) D)
    as (-> & _).
  repeat split; destruct isForwarding; vm_compute; reflexivity.
Qed.

(** ** INVALID instructions *)

(** C3.  The word 0x020000B3 decodes to INVALID, whatever the decoder's
    output argument held before, and the control unit sets [regWrite] for
    it, since it looks at the format only.  In [programInvalid] the word
    follows [addi x1,x0,5]: x1 holds 5 after five cycles, and 0 once the
    INVALID instruction has gone through writeback, in every later cycle,
    with or without forwarding. *)
Theorem invalid_word_writes_register (k : nat) (isForwarding : bool) :
  (forall inst, opcode (decodeInstruction 0x020000B3 inst) = INVALID)
  /\ (forall inst,
        regWrite (setControlSignals (decodeInstruction 0x020000B3 inst)) = true)
  /\ regFile (executePipeline (Processor_new programInvalid) 5 isForwarding)
       !! 1%nat = Some 5
  /\ regFile (executePipeline (Processor_new programInvalid)
                (7 + Z.of_nat k) isForwarding) !! 1%nat = Some 0.
Proof.
  assert (drained
            (executePipeline (Processor_new programInvalid) 7 isForwarding))
    as D by (destruct isForwarding; vm_compute; repeat split).
  destruct (executePipeline_past_drain _ 7 k isForwarding ltac:(lia) D)
    as (-> & _).
  repeat split; destruct isForwarding; vm_compute; reflexivity.
Qed.

(** ** Operand selection in the execute stage *)

(** [detectForwarding], on the registers it is given, selects each operand
    as the forwarding rule says. *)
Lemma detectForwarding_rule idEx exMem memWb :
  idex_valid idEx = true ->
  detectForwarding idEx exMem memWb
  = mkForwardingUnit (forwardFor (rs1 (idex_instruction idEx)) exMem memWb)
      (forwardFor (rs2 (idex_instruction idEx)) exMem memWb).
Proof. intros H. unfold detectForwarding. now rewrite H. Qed.

(** The execute stage calls it after it has copied the control signals of
    ID/EX into EX/MEM, so the [regWrite] it tests for EX/MEM is the one of
    the instruction entering execute. *)
Lemma executeForwarding_control c :
  regWrite (exmem_control (executeLatch c)) = regWrite (idex_control (idEx c))
  /\ rd (exmem_instruction (executeLatch c)) = rd (exmem_instruction (exMem c))
  /\ exmem_valid (executeLatch c) = exmem_valid (exMem c).
Proof. unfold executeLatch; simpl; auto. Qed.

(** C5.  In the fifth cycle of [programStoreThenUse], at the call of the
    execute stage ([stateStoreThenUse]), the instruction entering execute is
    [addi x2,x1,0].  EX/MEM and MEM/WB both hold the
    store [sw x1,4(x0)], valid, with [regWrite] unset; its destination field
    is 1, left over from the [addi] decoded before it.  The rule of the
    claim selects the latched register value (0) for the first operand; the
    execute stage selects EX/MEM and uses the store's address, 4, which ends
    up in x2. *)
Theorem execute_forwards_from_store :
  idex_valid (idEx stateStoreThenUse) = true
  /\ opcode (idex_instruction (idEx stateStoreThenUse)) = ADDI
  /\ rs1 (idex_instruction (idEx stateStoreThenUse)) = 1
  /\ exmem_valid (exMem stateStoreThenUse) = true
  /\ opcode (exmem_instruction (exMem stateStoreThenUse)) = SW
  /\ regWrite (exmem_control (exMem stateStoreThenUse)) = false
  /\ memwb_valid (memWb stateStoreThenUse) = true
  /\ regWrite (memwb_control (memWb stateStoreThenUse)) = false
  /\ idex_readData1 (idEx stateStoreThenUse) = 0
  /\ result (exmem_aluResult (exMem stateStoreThenUse)) = 4
  /\ forwardFor (rs1 (idex_instruction (idEx stateStoreThenUse)))
       (exMem stateStoreThenUse) (memWb stateStoreThenUse)
     = FROM_REG
  /\ forwardA (executeForwarding stateStoreThenUse) = FROM_EX_MEM
  /\ aluInput1 stateStoreThenUse true = 4
  /\ regFile (executePipeline (Processor_new programStoreThenUse) 8 true)
       !! 2%nat = Some 4.
Proof. vm_compute. repeat split. Qed.

(** * Further properties of the storage, the decoder and the driver *)

(** ** Bit fields and 32-bit conversions *)

Lemma pow2_le_mono (k n : Z) : 0 <= k <= n -> 2 ^ k <= 2 ^ n.
Proof. intros H. apply Z.pow_le_mono_r; lia. Qed.

(** A value below [2^k] shares no bit with a multiple of [2^k]. *)
Lemma land_low_high (x y k : Z) :
  0 <= k -> 0 <= x < 2 ^ k -> Z.land x (y * 2 ^ k) = 0.
Proof.
  intros Hk Hx. apply Z.bits_inj'. intros n Hn.
  rewrite Z.land_spec, Z.bits_0.
  destruct (Z.lt_ge_cases n k) as [Hlt|Hge].
  - rewrite Z.mul_pow2_bits_low by lia. apply andb_false_r.
  - assert (Z.testbit x n = false) as ->; [|reflexivity].
    apply Z.testbit_false; [lia|].
    rewrite Z.div_small; [reflexivity|].
    pose proof (pow2_le_mono k n). lia.
Qed.

Lemma lor_low_high (x y k : Z) :
  0 <= k -> 0 <= x < 2 ^ k -> Z.lor x (y * 2 ^ k) = x + y * 2 ^ k.
Proof.
  intros Hk Hx. pose proof (land_low_high x y k Hk Hx) as Hd.
  rewrite <- Z.lxor_lor by exact Hd.
  symmetry. now apply Z.add_nocarry_lxor.
Qed.

Lemma lor_high_low (x y k : Z) :
  0 <= k -> 0 <= x < 2 ^ k -> Z.lor (y * 2 ^ k) x = y * 2 ^ k + x.
Proof. intros Hk Hx. rewrite Z.lor_comm, lor_low_high by assumption. lia. Qed.

Lemma to_uint32_small (v : Z) : 0 <= v < 2 ^ 32 -> to_uint32 v = v.
Proof. intros H. unfold to_uint32. now apply Z.mod_small. Qed.

Lemma to_int32_id (v : Z) : int32_range v -> to_int32 v = v.
Proof.
  unfold int32_range, to_int32.
  change (2 ^ 31) with 2147483648. change (2 ^ 32) with 4294967296.
  intros H. rewrite Z.mod_small; lia.
Qed.

Lemma to_int32_range (v : Z) : int32_range (to_int32 v).
Proof.
  unfold int32_range, to_int32.
  change (2 ^ 31) with 2147483648. change (2 ^ 32) with 4294967296.
  pose proof (Z.mod_pos_bound (v + 2147483648) 4294967296). lia.
Qed.

Lemma to_int32_signedLow (v : Z) : to_int32 v = signedLow 32 v.
Proof. reflexivity. Qed.

Lemma to_int32_to_uint32 (v : Z) : to_int32 (to_uint32 v) = to_int32 v.
Proof.
  unfold to_int32, to_uint32.
  change (2 ^ 31) with 2147483648. change (2 ^ 32) with 4294967296.
  rewrite Zplus_mod_idemp_l. reflexivity.
Qed.

(** [if (x & 2^k) x |= 0xFFFFFFFF << (k+1)] reads the low [k+1] bits of [x]
    as a signed number. *)
Lemma signExtend_signedLow (k x : Z) :
  0 <= k < 31 -> 0 <= x < 2 ^ (k + 1) ->
  signExtend x (2 ^ k) (2 ^ 32 - 2 ^ (k + 1)) = signedLow (k + 1) x.
Proof.
  intros Hk Hx.
  assert (2 ^ (k + 1) = 2 * 2 ^ k) as E1
    by (rewrite Z.pow_add_r by lia; change (2 ^ 1) with 2; lia).
  assert (2 ^ 32 = 2 ^ (31 - k) * 2 ^ (k + 1)) as E2
    by (rewrite <- Z.pow_add_r by lia; f_equal; lia).
  assert (0 < 2 ^ k) as Hp by (apply Z.pow_pos_nonneg; lia).
  assert (2 ^ (k + 1) <= 2 ^ 31) as Hle by (apply pow2_le_mono; lia).
  unfold signExtend, signedLow.
  replace (k + 1 - 1) with k by lia.
  destruct (Z.lt_ge_cases x (2 ^ k)) as [Hlo|Hhi].
  - replace (2 ^ k) with (1 * 2 ^ k) at 1 by lia.
    rewrite land_low_high by lia. simpl.
    rewrite Z.mod_small by lia. lia.
  - assert (Z.land x (2 ^ k) = 2 ^ k) as Hbit.
    { replace x with (Z.lor (x - 2 ^ k) (1 * 2 ^ k)) at 1
        by (rewrite lor_low_high; lia).
      rewrite Z.land_lor_distr_l.
      replace (2 ^ k) with (1 * 2 ^ k) at 2 by lia.
      rewrite land_low_high by lia.
      rewrite Z.mul_1_l, Z.land_diag. reflexivity. }
    rewrite Hbit.
    destruct (2 ^ k =? 0) eqn:Hz; [apply Z.eqb_eq in Hz; lia|].
    unfold or_assign.
    rewrite to_uint32_small
      by (change (2 ^ 32) with (2 * 2 ^ 31); lia).
    replace (2 ^ 32 - 2 ^ (k + 1)) with ((2 ^ (31 - k) - 1) * 2 ^ (k + 1))
      by lia.
    rewrite lor_low_high by lia.
    replace ((2 ^ (31 - k) - 1) * 2 ^ (k + 1)) with (2 ^ 32 - 2 ^ (k + 1))
      by lia.
    unfold to_int32. rewrite E1 in *.
    change (2 ^ 32) with 4294967296 in *. change (2 ^ 31) with 2147483648 in *.
    assert ((x + (4294967296 - 2 * 2 ^ k) + 2147483648) mod 4294967296
            = x - 2 * 2 ^ k + 2147483648) as ->
      by (symmetry; apply Z.mod_unique with (q := 1); lia).
    assert ((x + 2 ^ k) mod (2 * 2 ^ k) = x - 2 ^ k) as ->
      by (symmetry; apply Z.mod_unique with (q := 1); lia).
    lia.
Qed.

(** ** Register file *)

(** Reading a register after a write, in one equation. *)
Lemma RegisterFile_read_write (registers : list Z) (reg reg' value : Z) :
  length registers = 32%nat ->
  RegisterFile_read (RegisterFile_write registers reg value) reg'
  = if (reg' =? reg) && (0 <? reg) && (reg <? 32) then value
    else RegisterFile_read registers reg'.
Proof.
  intros Hlen. unfold RegisterFile_write.
  destruct (0 <? reg) eqn:Hpos; simpl;
    [|rewrite andb_false_r; reflexivity].
  destruct (reg <? 32) eqn:Hlt; simpl;
    [|rewrite andb_false_r; reflexivity].
  rewrite andb_true_r.
  apply Z.ltb_lt in Hpos, Hlt.
  unfold RegisterFile_read.
  destruct (reg' =? reg) eqn:Heq.
  - apply Z.eqb_eq in Heq. subst reg'.
    assert ((0 <=? reg) && (reg <? 32) = true) as ->
      by (apply andb_true_iff; split; [apply Z.leb_le | apply Z.ltb_lt]; lia).
    rewrite list_lookup_insert_eq by lia. reflexivity.
  - apply Z.eqb_neq in Heq.
    destruct ((0 <=? reg') && (reg' <? 32)) eqn:Hr; [|reflexivity].
    apply andb_true_iff in Hr as [H0 H1].
    apply Z.leb_le in H0. apply Z.ltb_lt in H1.
    rewrite list_lookup_insert_ne by lia. reflexivity.
Qed.

(** On the 32-entry register file, a read after a write returns the
    written value when the same register x1..x31 is read, and what the
    register file held before in every other case: another register, a write
    to x0, or a write index outside the array, which changes nothing. *)
Theorem RegisterFile_read_after_write (registers : list Z) (reg reg' value : Z) :
  length registers = 32%nat ->
  RegisterFile_read (RegisterFile_write registers reg value) reg'
  = if (reg' =? reg) && (0 <? reg) && (reg <? 32) then value
    else RegisterFile_read registers reg'.
Proof. exact (RegisterFile_read_write registers reg reg' value). Qed.

Lemma RegisterFile_read_after_write_witness :
  RegisterFile_read (RegisterFile_write RegisterFile_init 5 42) 5 = 42
  /\ RegisterFile_read (RegisterFile_write RegisterFile_init 0 42) 0 = 0.
Proof.
  split.
  - exact (RegisterFile_read_after_write RegisterFile_init 5 5 42 eq_refl).
  - exact (RegisterFile_read_after_write RegisterFile_init 0 0 42 eq_refl).
Defined.

Lemma RegisterFile_write_length (registers : list Z) (reg value : Z) :
  length (RegisterFile_write registers reg value) = length registers.
Proof.
  unfold RegisterFile_write.
  destruct ((0 <? reg) && (reg <? 32)); [apply length_insert | reflexivity].
Qed.

(** ** Data memory *)

Lemma DataMemory_write_loop_length memory address value i n :
  length (DataMemory_write_loop memory address value i n) = length memory.
Proof.
  revert memory i. induction n as [|n IH]; intros memory i; simpl;
    [reflexivity|].
  rewrite IH. apply length_insert.
Qed.

Lemma DataMemory_write_length memory address value size :
  length (DataMemory_write memory address value size) = length memory.
Proof.
  unfold DataMemory_write.
  destruct (_ <? _); [apply DataMemory_write_loop_length | reflexivity].
Qed.

(** The bytes of the vector after the write loop, when the addressed range
    does not wrap. *)
Lemma DataMemory_write_loop_lookup memory address value i n (j : nat) :
  0 <= address ->
  address + Z.of_nat i + Z.of_nat n <= Z.of_nat (length memory) ->
  Z.of_nat (length memory) <= 2 ^ 32 ->
  DataMemory_write_loop memory address value i n !! j
  = if (address + Z.of_nat i <=? Z.of_nat j)
       && (Z.of_nat j <? address + Z.of_nat i + Z.of_nat n)
    then Some (byteOf value (Z.to_nat (Z.of_nat j - address)))
    else memory !! j.
Proof.
  intros Ha. revert memory i. induction n as [|n IH]; intros memory i Hn Hlen.
  - simpl. destruct (_ <=? _) eqn:H1; simpl; [|reflexivity].
    destruct (_ <? _) eqn:H2; [|reflexivity].
    apply Z.leb_le in H1. apply Z.ltb_lt in H2. lia.
  - simpl DataMemory_write_loop.
    rewrite IH by (rewrite ?length_insert; lia).
    rewrite to_uint32_small by lia.
    destruct (address + Z.of_nat (S i) <=? Z.of_nat j) eqn:H1;
      destruct (address + Z.of_nat i <=? Z.of_nat j) eqn:H3;
      destruct (Z.of_nat j <? address + Z.of_nat (S i) + Z.of_nat n) eqn:H2;
      destruct (Z.of_nat j <? address + Z.of_nat i + Z.of_nat (S n)) eqn:H4;
      simpl;
      rewrite ?Z.leb_le, ?Z.leb_gt, ?Z.ltb_lt, ?Z.ltb_ge in *;
      try lia; try reflexivity.
    + rewrite list_lookup_insert_ne by lia. reflexivity.
    + assert (Z.to_nat (address + Z.of_nat i) = j) as E by lia.
      rewrite E, list_lookup_insert_eq by lia.
      unfold byteOf. do 3 f_equal. lia.
    + rewrite list_lookup_insert_ne by lia. reflexivity.
Qed.

Lemma byteOf_mod (value : Z) (k : nat) :
  byteOf value k = (value / 2 ^ (8 * Z.of_nat k)) mod 256.
Proof.
  unfold byteOf. change 255 with (Z.ones 8).
  rewrite Z.land_ones by lia. rewrite Z.shiftr_div_pow2 by lia.
  change (2 ^ 8) with 256. do 3 f_equal. lia.
Qed.

Lemma bytes_step (w y s : Z) :
  0 <= s ->
  Z.lor (Z.shiftl (w mod 256) s) (y * (256 * 2 ^ s))
  = (w mod 256 + 256 * y) * 2 ^ s.
Proof.
  intros Hs.
  replace (y * (256 * 2 ^ s)) with (Z.shiftl (y * 2 ^ 8) s)
    by (rewrite Z.shiftl_mul_pow2 by lia; change (2 ^ 8) with 256; lia).
  rewrite <- Z.shiftl_lor.
  rewrite lor_low_high
    by (change (2 ^ 8) with 256;
        pose proof (Z.mod_pos_bound w 256); lia).
  rewrite Z.shiftl_mul_pow2 by lia. change (2 ^ 8) with 256. lia.
Qed.

(** The read loop over a range that holds the bytes of [value]. *)
Lemma DataMemory_read_loop_bytes memory address value (i n : nat) :
  0 <= address ->
  address + Z.of_nat i + Z.of_nat n <= 2 ^ 32 ->
  (forall k : nat, (i <= k < i + n)%nat ->
     memory !! Z.to_nat (address + Z.of_nat k) = Some (byteOf value k)) ->
  DataMemory_read_loop memory address i n
  = (value / 2 ^ (8 * Z.of_nat i)) mod 2 ^ (8 * Z.of_nat n)
    * 2 ^ (8 * Z.of_nat i).
Proof.
  intros Ha. revert i. induction n as [|n IH]; intros i Hn Hb.
  - simpl. rewrite Z.mod_1_r. reflexivity.
  - simpl DataMemory_read_loop.
    rewrite to_uint32_small by lia.
    rewrite (Hb i) by lia. simpl default.
    rewrite IH by (intros; try apply Hb; lia).
    rewrite byteOf_mod.
    replace (Z.of_nat i * 8) with (8 * Z.of_nat i) by lia.
    set (s := 8 * Z.of_nat i).
    replace (8 * Z.of_nat (S i)) with (8 + s) by lia.
    replace (8 * Z.of_nat (S n)) with (8 + 8 * Z.of_nat n) by lia.
    rewrite !Z.pow_add_r by lia. change (2 ^ 8) with 256.
    rewrite (Z.mul_comm 256 (2 ^ s)), <- Z.div_div by lia.
    rewrite (Z.mul_comm (2 ^ s) 256).
    rewrite bytes_step by lia.
    rewrite Z.rem_mul_r by lia. reflexivity.
Qed.

(** The bytes of the vector after a write. *)
Lemma DataMemory_write_lookup memory address value (size j : nat) :
  0 <= address -> (0 < size)%nat ->
  address + Z.of_nat size <= Z.of_nat (length memory) ->
  Z.of_nat (length memory) <= 2 ^ 32 ->
  DataMemory_write memory address value size !! j
  = if (address <=? Z.of_nat j) && (Z.of_nat j <? address + Z.of_nat size)
    then Some (byteOf value (Z.to_nat (Z.of_nat j - address)))
    else memory !! j.
Proof.
  intros Ha Hs Hin Hlen. unfold DataMemory_write.
  rewrite to_uint32_small by lia.
  destruct (address + Z.of_nat size - 1 <? Z.of_nat (length memory)) eqn:Hg;
    [|apply Z.ltb_ge in Hg; lia].
  rewrite DataMemory_write_loop_lookup by lia.
  replace (address + Z.of_nat 0%nat) with address by lia. reflexivity.
Qed.

(** Bytes of the vector after [DataMemory::write] of 1 to 4 bytes: the
    addressed range holds the low bytes of the value, least significant
    first, and every other byte is as before. *)
Theorem DataMemory_write_bytes memory address value (size j : nat) :
  0 <= address -> (0 < size <= 4)%nat ->
  address + Z.of_nat size <= Z.of_nat (length memory) ->
  Z.of_nat (length memory) <= 2 ^ 32 ->
  DataMemory_write memory address value size !! j
  = if (address <=? Z.of_nat j) && (Z.of_nat j <? address + Z.of_nat size)
    then Some (byteOf value (Z.to_nat (Z.of_nat j - address)))
    else memory !! j.
Proof.
  intros Ha Hs. apply DataMemory_write_lookup; [exact Ha | lia].
Qed.

Lemma DataMemory_write_bytes_witness :
  DataMemory_write DataMemory_init 8 305419896 4 !! 9%nat = Some 86
  /\ DataMemory_write DataMemory_init 8 305419896 4 !! 12%nat = Some 0.
Proof.
  split.
  - rewrite (DataMemory_write_bytes DataMemory_init 8 305419896 4 9)
      by (unfold DataMemory_init; rewrite ?length_replicate; lia).
    vm_compute. reflexivity.
  - rewrite (DataMemory_write_bytes DataMemory_init 8 305419896 4 12)
      by (unfold DataMemory_init; rewrite ?length_replicate; lia).
    vm_compute. reflexivity.
Defined.

(** A read of the range just written. *)
Lemma DataMemory_read_write memory address value (size : nat) :
  0 <= address -> (0 < size)%nat ->
  address + Z.of_nat size <= Z.of_nat (length memory) ->
  Z.of_nat (length memory) <= 2 ^ 32 ->
  DataMemory_read (DataMemory_write memory address value size) address size
  = to_int32 (value mod 2 ^ (8 * Z.of_nat size)).
Proof.
  intros Ha Hs Hin Hlen. unfold DataMemory_read.
  rewrite DataMemory_write_length.
  rewrite to_uint32_small by lia.
  destruct (address + Z.of_nat size - 1 <? Z.of_nat (length memory)) eqn:Hg;
    [|apply Z.ltb_ge in Hg; lia].
  rewrite (DataMemory_read_loop_bytes _ address value 0 size); try lia.
  - simpl (8 * Z.of_nat 0). change (2 ^ 0) with 1.
    rewrite Z.div_1_r, Z.mul_1_r. reflexivity.
  - intros k Hk.
    rewrite DataMemory_write_lookup by lia.
    assert ((address <=? Z.of_nat (Z.to_nat (address + Z.of_nat k)))
            && (Z.of_nat (Z.to_nat (address + Z.of_nat k))
                <? address + Z.of_nat size) = true) as ->.
    { apply andb_true_iff. split; [apply Z.leb_le | apply Z.ltb_lt]; lia. }
    do 2 f_equal. lia.
Qed.

(** Reading back what was written, for 1 to 4 bytes: the low [8 * size]
    bits of the value, converted to [int32_t]. *)
Theorem DataMemory_read_after_write memory address value (size : nat) :
  0 <= address -> (0 < size <= 4)%nat ->
  address + Z.of_nat size <= Z.of_nat (length memory) ->
  Z.of_nat (length memory) <= 2 ^ 32 ->
  DataMemory_read (DataMemory_write memory address value size) address size
  = to_int32 (value mod 2 ^ (8 * Z.of_nat size)).
Proof.
  intros Ha Hs. apply DataMemory_read_write; [exact Ha | lia].
Qed.

Lemma DataMemory_read_after_write_witness :
  DataMemory_read (DataMemory_write DataMemory_init 8 (-2) 4) 8 4 = -2
  /\ DataMemory_read (DataMemory_write DataMemory_init 8 (-2) 1) 8 1 = 254.
Proof.
  split.
  - rewrite (DataMemory_read_after_write DataMemory_init 8 (-2) 4)
      by (unfold DataMemory_init; rewrite ?length_replicate; lia).
    vm_compute. reflexivity.
  - rewrite (DataMemory_read_after_write DataMemory_init 8 (-2) 1)
      by (unfold DataMemory_init; rewrite ?length_replicate; lia).
    vm_compute. reflexivity.
Defined.

(** ** Loads after stores *)

Lemma signedLow_mod (n v : Z) :
  0 < n -> signedLow n (v mod 2 ^ n) = signedLow n v.
Proof.
  intros Hn. unfold signedLow. now rewrite Zplus_mod_idemp_l.
Qed.

Lemma to_int32_low (n v : Z) :
  0 <= n < 32 -> to_int32 (v mod 2 ^ n) = v mod 2 ^ n.
Proof.
  intros Hn. apply to_int32_id. unfold int32_range.
  pose proof (Z.mod_pos_bound v (2 ^ n) ltac:(apply Z.pow_pos_nonneg; lia)).
  pose proof (pow2_le_mono n 31 ltac:(lia)).
  assert (0 < 2 ^ 31) by (apply Z.pow_pos_nonneg; lia). lia.
Qed.

(** A store followed by a load of the same width at the same address, the
    accessed bytes lying inside the vector: the word comes back as it was
    converted to [int32_t]; a byte or halfword comes back as the low 8 or 16
    bits of the stored value, read as signed by LB and LH and as unsigned by
    LBU and LHU. *)
Theorem load_after_store (memory : list Z) (address value : Z) :
  0 <= address ->
  Z.of_nat (length memory) <= 2 ^ 32 ->
  (address + 1 <= Z.of_nat (length memory) ->
   loadValue (storeValue memory SB address value) LB address
   = signedLow 8 value
   /\ loadValue (storeValue memory SB address value) LBU address
      = value mod 2 ^ 8)
  /\ (address + 2 <= Z.of_nat (length memory) ->
      loadValue (storeValue memory SH address value) LH address
      = signedLow 16 value
      /\ loadValue (storeValue memory SH address value) LHU address
         = value mod 2 ^ 16)
  /\ (address + 4 <= Z.of_nat (length memory) ->
      loadValue (storeValue memory SW address value) LW address
      = to_int32 value).
Proof.
  intros Ha Hlen. unfold loadValue, storeValue.
  split; [|split]; intros Hin; [split | split |].
  - rewrite DataMemory_read_write by (simpl; lia).
    change (8 * Z.of_nat 1) with 8. rewrite to_int32_low by lia.
    change (if Z.land (value mod 2 ^ 8) 128 =? 0 then value mod 2 ^ 8
            else or_assign (value mod 2 ^ 8) 4294967040)
      with (signExtend (value mod 2 ^ 8) (2 ^ 7) (2 ^ 32 - 2 ^ (7 + 1))).
    rewrite signExtend_signedLow
      by (try lia; apply Z.mod_pos_bound; reflexivity).
    apply signedLow_mod. lia.
  - rewrite DataMemory_read_write by (simpl; lia).
    change (8 * Z.of_nat 1) with 8. rewrite to_int32_low by lia.
    change 255 with (Z.ones 8). rewrite Z.land_ones by lia.
    apply Z.mod_mod. discriminate.
  - rewrite DataMemory_read_write by (simpl; lia).
    change (8 * Z.of_nat 2) with 16. rewrite to_int32_low by lia.
    change (if Z.land (value mod 2 ^ 16) 32768 =? 0 then value mod 2 ^ 16
            else or_assign (value mod 2 ^ 16) 4294901760)
      with (signExtend (value mod 2 ^ 16) (2 ^ 15) (2 ^ 32 - 2 ^ (15 + 1))).
    rewrite signExtend_signedLow
      by (try lia; apply Z.mod_pos_bound; reflexivity).
    apply signedLow_mod. lia.
  - rewrite DataMemory_read_write by (simpl; lia).
    change (8 * Z.of_nat 2) with 16. rewrite to_int32_low by lia.
    change 65535 with (Z.ones 16). rewrite Z.land_ones by lia.
    apply Z.mod_mod. discriminate.
  - rewrite DataMemory_read_write by (simpl; lia).
    change (8 * Z.of_nat 4) with 32.
    apply (to_int32_to_uint32 value).
Qed.

Lemma load_after_store_witness :
  loadValue (storeValue DataMemory_init SB 0 255) LB 0 = -1
  /\ loadValue (storeValue DataMemory_init SB 0 255) LBU 0 = 255
  /\ loadValue (storeValue DataMemory_init SH 0 65535) LH 0 = -1
  /\ loadValue (storeValue DataMemory_init SH 0 65535) LHU 0 = 65535
  /\ loadValue (storeValue DataMemory_init SW 0 7) LW 0 = 7.
Proof.
  assert (Z.of_nat (length DataMemory_init) = 1024) as L by reflexivity.
  destruct (load_after_store DataMemory_init 0 255 ltac:(lia)
              ltac:(rewrite L; lia)) as (B & _ & _).
  destruct (load_after_store DataMemory_init 0 65535 ltac:(lia)
              ltac:(rewrite L; lia)) as (_ & H & _).
  destruct (load_after_store DataMemory_init 0 7 ltac:(lia)
              ltac:(rewrite L; lia)) as (_ & _ & W).
  destruct (B ltac:(rewrite L; lia)) as (B1 & B2).
  destruct (H ltac:(rewrite L; lia)) as (H1 & H2).
  specialize (W ltac:(rewrite L; lia)).
  repeat split; assumption.
Defined.

Ltac decode_cases :=
  unfold decodeInstruction;
  repeat match goal with
    | |- context [if ?b then _ else _] => destruct b eqn:?
    end.

(** ** Decoder *)

(** Decoding a word again into the object that already holds its decoding
    changes nothing, whatever the object held before the first decoding. *)
Theorem decodeInstruction_idempotent (rawInst : Z) (inst : Instruction) :
  decodeInstruction rawInst (decodeInstruction rawInst inst)
  = decodeInstruction rawInst inst.
Proof.
  unfold decodeInstruction.
  repeat match goal with
    | |- context [if Z.land rawInst 127 =? ?c then _ else _] =>
        destruct (Z.land rawInst 127 =? c)
    end; reflexivity.
Qed.

(** A defined opcode always comes with the format of its group: the
    decoder never pairs, say, ADD with the I format, even though the fields
    it does not assign are left over from the previous instruction. *)
Theorem decodeInstruction_format (rawInst : Z) (inst : Instruction) :
  opcode (decodeInstruction rawInst inst) <> INVALID ->
  Opcode_format (opcode (decodeInstruction rawInst inst))
  = Some (format (decodeInstruction rawInst inst)).
Proof.
  decode_cases; simpl; congruence.
Qed.

Lemma bits_mod (rawInst k j : Z) :
  0 <= k -> 0 <= j ->
  bits rawInst k (Z.ones j) = (rawInst / 2 ^ k) mod 2 ^ j.
Proof.
  intros Hk Hj. unfold bits.
  rewrite Z.land_ones by lia. now rewrite Z.shiftr_div_pow2 by lia.
Qed.

Lemma opcodeField_mod (rawInst : Z) : Z.land rawInst 127 = rawInst mod 128.
Proof. change 127 with (Z.ones 7). now rewrite Z.land_ones by lia. Qed.

(** The register fields, case by case. *)
Lemma decodeInstruction_register_fields (rawInst : Z) (inst : Instruction) :
  rd (decodeInstruction rawInst inst)
  = (if assignsRd (rawInst mod 128) then (rawInst / 2 ^ 7) mod 32
     else rd inst)
  /\ rs1 (decodeInstruction rawInst inst)
     = (if assignsRs1 (rawInst mod 128) then (rawInst / 2 ^ 15) mod 32
        else rs1 inst)
  /\ rs2 (decodeInstruction rawInst inst)
     = (if assignsRs2 (rawInst mod 128) then (rawInst / 2 ^ 20) mod 32
        else rs2 inst).
Proof.
  rewrite <- opcodeField_mod.
  change 32 with (2 ^ 5).
  rewrite <- !(bits_mod rawInst _ 5) by lia. change (Z.ones 5) with 31.
  unfold decodeInstruction, assignsRd, assignsRs1, assignsRs2, existsb.
  repeat match goal with
    | |- context [if Z.land rawInst 127 =? ?c then _ else _] =>
        destruct (Z.land rawInst 127 =? c) eqn:?
    end;
    repeat match goal with
      | H : (_ =? _) = true |- _ => apply Z.eqb_eq in H; rewrite H in *
      end;
    try discriminate; simpl; auto.
Qed.

(** The register fields of a decoded instruction: bits 7-11, 15-19 and 20-24
    of the word for the fields that the case of the opcode field assigns, and
    whatever the output object held before for the others. *)
Theorem decodeInstruction_registers (rawInst : Z) (inst : Instruction) :
  rd (decodeInstruction rawInst inst)
  = (if assignsRd (rawInst mod 128) then (rawInst / 2 ^ 7) mod 32
     else rd inst)
  /\ rs1 (decodeInstruction rawInst inst)
     = (if assignsRs1 (rawInst mod 128) then (rawInst / 2 ^ 15) mod 32
        else rs1 inst)
  /\ rs2 (decodeInstruction rawInst inst)
     = (if assignsRs2 (rawInst mod 128) then (rawInst / 2 ^ 20) mod 32
        else rs2 inst).
Proof. exact (decodeInstruction_register_fields rawInst inst). Qed.

Lemma decodeInstruction_fields_in_range (rawInst : Z) (inst : Instruction) :
  registerFieldsInRange inst ->
  registerFieldsInRange (decodeInstruction rawInst inst).
Proof.
  intros (H1 & H2 & H3). unfold registerFieldsInRange.
  destruct (decodeInstruction_register_fields rawInst inst) as (-> & -> & ->).
  pose proof (Z.mod_pos_bound (rawInst / 2 ^ 7) 32).
  pose proof (Z.mod_pos_bound (rawInst / 2 ^ 15) 32).
  pose proof (Z.mod_pos_bound (rawInst / 2 ^ 20) 32).
  destruct (assignsRd _), (assignsRs1 _), (assignsRs2 _); lia.
Qed.

(** ** Immediates *)

Lemma or_assign_small (x m : Z) :
  0 <= x < 2 ^ 31 -> 0 <= m < 2 ^ 31 -> or_assign x m = Z.lor x m.
Proof.
  intros Hx Hm. unfold or_assign.
  rewrite to_uint32_small by (change (2 ^ 32) with (2 * 2 ^ 31); lia).
  apply to_int32_id. unfold int32_range.
  assert (0 <= Z.lor x m) by (apply Z.lor_nonneg; lia).
  split; [lia|].
  destruct (Z.eq_dec (Z.lor x m) 0) as [->|Hnz]; [reflexivity|].
  apply Z.log2_lt_pow2; [lia|].
  rewrite Z.log2_lor by lia.
  apply Z.max_lub_lt.
  - destruct (Z.eq_dec x 0) as [->|]; [reflexivity|].
    apply Z.log2_lt_pow2; lia.
  - destruct (Z.eq_dec m 0) as [->|]; [reflexivity|].
    apply Z.log2_lt_pow2; lia.
Qed.

Lemma signedLow_range (n v : Z) :
  0 < n -> - 2 ^ (n - 1) <= signedLow n v < 2 ^ (n - 1).
Proof.
  intros Hn. unfold signedLow.
  assert (2 ^ n = 2 * 2 ^ (n - 1)) as E
    by (replace n with (1 + (n - 1)) at 1 by lia;
        rewrite Z.pow_add_r by lia; reflexivity).
  assert (0 < 2 ^ (n - 1)) by (apply Z.pow_pos_nonneg; lia).
  pose proof (Z.mod_pos_bound (v + 2 ^ (n - 1)) (2 ^ n)). lia.
Qed.

Lemma signedLow_id (n v : Z) :
  0 < n -> - 2 ^ (n - 1) <= v < 2 ^ (n - 1) -> signedLow n v = v.
Proof.
  intros Hn Hv. unfold signedLow.
  assert (2 ^ n = 2 * 2 ^ (n - 1)) as E
    by (replace n with (1 + (n - 1)) at 1 by lia;
        rewrite Z.pow_add_r by lia; reflexivity).
  rewrite Z.mod_small; lia.
Qed.

Lemma word_field_bound (rawInst k : Z) :
  0 <= rawInst < 2 ^ 32 -> 0 <= k <= 32 ->
  0 <= rawInst / 2 ^ k < 2 ^ (32 - k).
Proof.
  intros Hr Hk.
  assert (0 < 2 ^ k) by (apply Z.pow_pos_nonneg; lia).
  assert (2 ^ 32 = 2 ^ k * 2 ^ (32 - k)) as E
    by (rewrite <- Z.pow_add_r by lia; f_equal; lia).
  split; [apply Z.div_pos; lia|].
  apply Z.div_lt_upper_bound; lia.
Qed.

(** The immediate of the I forms (arithmetic, loads, JALR) is bits 20-31 of
    the word read as a 12-bit signed number. *)
Lemma immediate_I_signed (rawInst : Z) :
  0 <= rawInst < 2 ^ 32 ->
  immediate_I rawInst = signedLow 12 (rawInst / 2 ^ 20).
Proof.
  intros Hr. unfold immediate_I.
  pose proof (word_field_bound rawInst 20 Hr ltac:(lia)) as Hb.
  change (2 ^ (32 - 20)) with 4096 in Hb.
  rewrite Z.shiftr_div_pow2 by lia.
  rewrite to_int32_id by (unfold int32_range; simpl; lia).
  change 2048 with (2 ^ 11).
  change 4294963200 with (2 ^ 32 - 2 ^ (11 + 1)).
  now rewrite signExtend_signedLow by (simpl; lia).
Qed.

(** The immediate of the S form: bits 25-31 above bits 7-11, as a 12-bit
    signed number. *)
Lemma immediate_S_signed (rawInst : Z) :
  0 <= rawInst < 2 ^ 32 ->
  immediate_S rawInst
  = signedLow 12 (rawInst / 2 ^ 25 * 32 + (rawInst / 2 ^ 7) mod 32).
Proof.
  intros Hr. unfold immediate_S.
  pose proof (word_field_bound rawInst 25 Hr ltac:(lia)) as Hb.
  change (2 ^ (32 - 25)) with 128 in Hb.
  change 127 with (Z.ones 7). change 31 with (Z.ones 5).
  rewrite !bits_mod by lia.
  change (2 ^ 7) with 128 in *. change (2 ^ 5) with 32.
  rewrite (Z.mod_small (rawInst / 2 ^ 25) 128) by lia.
  pose proof (Z.mod_pos_bound (rawInst / 128) 32 ltac:(lia)) as Hf.
  rewrite Z.shiftl_mul_pow2 by lia. change (2 ^ 5) with 32.
  rewrite to_int32_id by (unfold int32_range; simpl; lia).
  rewrite or_assign_small by (simpl; lia).
  change 32 with (2 ^ 5) at 1.
  rewrite lor_high_low by (simpl; lia). change (2 ^ 5) with 32.
  change 2048 with (2 ^ 11).
  change 4294963200 with (2 ^ 32 - 2 ^ (11 + 1)).
  now rewrite signExtend_signedLow by (simpl; lia).
Qed.

(** The immediate of the U form: the word with its low 12 bits cleared,
    converted to [int32_t]. *)
Lemma immediate_U_upper (rawInst : Z) :
  0 <= rawInst < 2 ^ 32 ->
  immediate_U rawInst = to_int32 (rawInst / 2 ^ 12 * 2 ^ 12).
Proof.
  intros Hr. unfold immediate_U. f_equal.
  pose proof (word_field_bound rawInst 12 Hr ltac:(lia)) as Hb.
  change (2 ^ (32 - 12)) with (2 ^ 20) in Hb.
  rewrite (Z.div_mod rawInst (2 ^ 12)) at 1 by lia.
  rewrite Z.add_comm, (Z.mul_comm (2 ^ 12)).
  rewrite <- lor_low_high by (try apply Z.mod_pos_bound; lia).
  rewrite Z.land_lor_distr_l.
  change 4294963200 with ((2 ^ 20 - 1) * 2 ^ 12) at 1.
  rewrite land_low_high by (try apply Z.mod_pos_bound; lia).
  rewrite Z.lor_0_l.
  change 4294963200 with (Z.shiftl (Z.ones 20) 12).
  rewrite <- Z.shiftl_mul_pow2, <- Z.shiftl_land by lia.
  rewrite Z.land_ones, Z.mod_small by lia. reflexivity.
Qed.

Lemma top_bit (rawInst : Z) :
  0 <= rawInst < 2 ^ 32 -> bits rawInst 31 1 = rawInst / 2 ^ 31.
Proof.
  intros Hr. change 1 with (Z.ones 1). rewrite bits_mod by lia.
  pose proof (word_field_bound rawInst 31 Hr ltac:(lia)) as Hb.
  change (2 ^ (32 - 31)) with 2 in Hb. change (2 ^ 1) with 2.
  apply Z.mod_small. lia.
Qed.

(** Merging a field into an accumulator whose set bits all lie above it. *)
Lemma or_assign_field (acc field hi k : Z) :
  0 <= k -> acc = hi * 2 ^ k -> 0 <= acc -> 0 <= field < 2 ^ k ->
  acc + field < 2 ^ 31 ->
  or_assign acc field = acc + field.
Proof.
  intros Hk E Hacc Hf Hsum.
  rewrite or_assign_small by lia.
  rewrite E. rewrite lor_high_low by lia. reflexivity.
Qed.

(** The immediate of the B form: bit 31, bit 7, bits 25-30 and bits 8-11 of
    the word make bits 12, 11, 5-10 and 1-4 of a 13-bit signed number. *)
Lemma immediate_B_signed (rawInst : Z) :
  0 <= rawInst < 2 ^ 32 ->
  immediate_B rawInst
  = signedLow 13
      (rawInst / 2 ^ 31 * 4096 + (rawInst / 2 ^ 7) mod 2 * 2048
       + (rawInst / 2 ^ 25) mod 64 * 32 + (rawInst / 2 ^ 8) mod 16 * 2).
Proof.
  intros Hr. unfold immediate_B.
  rewrite top_bit by exact Hr.
  change (bits rawInst 7 1) with (bits rawInst 7 (Z.ones 1)).
  change 63 with (Z.ones 6). change 15 with (Z.ones 4).
  rewrite !bits_mod by lia.
  pose proof (word_field_bound rawInst 31 Hr ltac:(lia)) as Ha.
  change (2 ^ (32 - 31)) with 2 in Ha.
  pose proof (Z.mod_pos_bound (rawInst / 2 ^ 7) (2 ^ 1) ltac:(lia)) as Hb.
  pose proof (Z.mod_pos_bound (rawInst / 2 ^ 25) (2 ^ 6) ltac:(lia)) as Hc.
  pose proof (Z.mod_pos_bound (rawInst / 2 ^ 8) (2 ^ 4) ltac:(lia)) as Hd.
  change (2 ^ 1) with 2 in *. change (2 ^ 6) with 64 in *.
  change (2 ^ 4) with 16 in *.
  generalize dependent (rawInst / 2 ^ 31). intros a Ha.
  generalize dependent ((rawInst / 2 ^ 7) mod 2). intros b Hb.
  generalize dependent ((rawInst / 2 ^ 25) mod 64). intros c Hc.
  generalize dependent ((rawInst / 2 ^ 8) mod 16). intros d Hd.
  rewrite !Z.shiftl_mul_pow2 by lia.
  change (2 ^ 12) with 4096. change (2 ^ 11) with 2048.
  change (2 ^ 5) with 32. change (2 ^ 1) with 2.
  rewrite (or_assign_field 0 (a * 4096) 0 13) by lia.
  rewrite (or_assign_field (0 + a * 4096) (b * 2048) a 12) by lia.
  rewrite (or_assign_field (0 + a * 4096 + b * 2048) (c * 32)
             (a * 2 + b) 11) by lia.
  rewrite (or_assign_field (0 + a * 4096 + b * 2048 + c * 32) (d * 2)
             (a * 128 + b * 64 + c) 5) by lia.
  etransitivity; [apply (signExtend_signedLow 12); lia|].
  f_equal.
Qed.

(** The same when the mask also covers the tested bit, as in the J case of
    the decoder. *)
Lemma signExtend_signedLow_overlap (k x : Z) :
  0 <= k < 31 -> 0 <= x < 2 ^ (k + 1) ->
  signExtend x (2 ^ k) (2 ^ 32 - 2 ^ k) = signedLow (k + 1) x.
Proof.
  intros Hk Hx. rewrite <- signExtend_signedLow by assumption.
  unfold signExtend. destruct (Z.land x (2 ^ k) =? 0) eqn:Hb; [reflexivity|].
  assert (2 ^ (k + 1) = 2 * 2 ^ k) as E1
    by (rewrite Z.pow_add_r by lia; change (2 ^ 1) with 2; lia).
  assert (0 < 2 ^ k) as Hp by (apply Z.pow_pos_nonneg; lia).
  assert (2 ^ k <= x) as Hhi.
  { destruct (Z.lt_ge_cases x (2 ^ k)) as [Hlo|]; [|assumption].
    replace (2 ^ k) with (1 * 2 ^ k) in Hb at 1 by lia.
    rewrite land_low_high in Hb by lia. discriminate Hb. }
  assert (2 ^ 32 = 2 ^ (32 - k) * 2 ^ k) as E2
    by (rewrite <- Z.pow_add_r by lia; f_equal; lia).
  assert (2 ^ (32 - k) = 2 * 2 ^ (31 - k)) as E3
    by (replace (32 - k) with (1 + (31 - k)) by lia;
        rewrite Z.pow_add_r by lia; reflexivity).
  assert (0 < 2 ^ (31 - k)) by (apply Z.pow_pos_nonneg; lia).
  unfold or_assign. f_equal.
  rewrite to_uint32_small by (change (2 ^ 32) with (2 * 2 ^ 31);
                              pose proof (pow2_le_mono (k + 1) 31); lia).
  replace x with (Z.lor (x - 2 ^ k) (1 * 2 ^ k)) at 1
    by (rewrite lor_low_high; lia).
  rewrite <- Z.lor_assoc.
  replace (2 ^ 32 - 2 ^ k) with (Z.ones (32 - k) * 2 ^ k)
    by (rewrite Z.ones_equiv; lia).
  rewrite <- !Z.shiftl_mul_pow2, <- Z.shiftl_lor by lia.
  rewrite Z.lor_ones_low by (simpl; lia).
  rewrite Z.shiftl_mul_pow2, lor_low_high by lia.
  replace (2 ^ 32 - 2 ^ (k + 1)) with ((2 ^ (31 - k) - 1) * 2 ^ (k + 1))
    by lia.
  rewrite lor_low_high by lia.
  rewrite Z.ones_equiv. lia.
Qed.

(** The immediate of the J form: bit 31, bits 12-19, bit 20 and bits 21-30
    of the word make bits 20, 12-19, 11 and 1-10 of a 21-bit signed number. *)
Lemma immediate_J_signed (rawInst : Z) :
  0 <= rawInst < 2 ^ 32 ->
  immediate_J rawInst
  = signedLow 21
      (rawInst / 2 ^ 31 * 1048576 + (rawInst / 2 ^ 12) mod 256 * 4096
       + (rawInst / 2 ^ 20) mod 2 * 2048 + (rawInst / 2 ^ 21) mod 1024 * 2).
Proof.
  intros Hr. unfold immediate_J.
  rewrite top_bit by exact Hr.
  change (bits rawInst 20 1) with (bits rawInst 20 (Z.ones 1)).
  change 255 with (Z.ones 8). change 1023 with (Z.ones 10).
  rewrite !bits_mod by lia.
  pose proof (word_field_bound rawInst 31 Hr ltac:(lia)) as Ha.
  change (2 ^ (32 - 31)) with 2 in Ha.
  pose proof (Z.mod_pos_bound (rawInst / 2 ^ 12) (2 ^ 8) ltac:(lia)) as Hb.
  pose proof (Z.mod_pos_bound (rawInst / 2 ^ 20) (2 ^ 1) ltac:(lia)) as Hc.
  pose proof (Z.mod_pos_bound (rawInst / 2 ^ 21) (2 ^ 10) ltac:(lia)) as Hd.
  change (2 ^ 1) with 2 in *. change (2 ^ 8) with 256 in *.
  change (2 ^ 10) with 1024 in *.
  generalize dependent (rawInst / 2 ^ 31). intros a Ha.
  generalize dependent ((rawInst / 2 ^ 12) mod 256). intros b Hb.
  generalize dependent ((rawInst / 2 ^ 20) mod 2). intros c Hc.
  generalize dependent ((rawInst / 2 ^ 21) mod 1024). intros d Hd.
  rewrite !Z.shiftl_mul_pow2 by lia.
  change (2 ^ 20) with 1048576. change (2 ^ 12) with 4096.
  change (2 ^ 11) with 2048. change (2 ^ 1) with 2.
  rewrite (or_assign_field 0 (a * 1048576) 0 21) by lia.
  rewrite (or_assign_field (0 + a * 1048576) (b * 4096) a 20) by lia.
  rewrite (or_assign_field (0 + a * 1048576 + b * 4096) (c * 2048)
             (a * 256 + b) 12) by lia.
  rewrite (or_assign_field (0 + a * 1048576 + b * 4096 + c * 2048) (d * 2)
             (a * 512 + b * 2 + c) 11) by lia.
  etransitivity; [apply (signExtend_signedLow_overlap 20); lia|].
  f_equal.
Qed.

(** The immediate, case by case. *)
Lemma decodeInstruction_immediate_cases (rawInst : Z) (inst : Instruction) :
  0 <= rawInst < 2 ^ 32 ->
  (existsb (Z.eqb (rawInst mod 128)) [19; 3; 103] = true ->
   immediate (decodeInstruction rawInst inst)
   = signedLow 12 (rawInst / 2 ^ 20))
  /\ (rawInst mod 128 = 35 ->
      immediate (decodeInstruction rawInst inst)
      = signedLow 12 (rawInst / 2 ^ 25 * 32 + (rawInst / 2 ^ 7) mod 32))
  /\ (rawInst mod 128 = 99 ->
      immediate (decodeInstruction rawInst inst)
      = signedLow 13
          (rawInst / 2 ^ 31 * 4096 + (rawInst / 2 ^ 7) mod 2 * 2048
           + (rawInst / 2 ^ 25) mod 64 * 32 + (rawInst / 2 ^ 8) mod 16 * 2))
  /\ (existsb (Z.eqb (rawInst mod 128)) [55; 23] = true ->
      immediate (decodeInstruction rawInst inst)
      = to_int32 (rawInst / 2 ^ 12 * 2 ^ 12))
  /\ (rawInst mod 128 = 111 ->
      immediate (decodeInstruction rawInst inst)
      = signedLow 21
          (rawInst / 2 ^ 31 * 1048576 + (rawInst / 2 ^ 12) mod 256 * 4096
           + (rawInst / 2 ^ 20) mod 2 * 2048
           + (rawInst / 2 ^ 21) mod 1024 * 2))
  /\ (existsb (Z.eqb (rawInst mod 128)) [19; 3; 103; 35; 99; 55; 23; 111]
      = false ->
      immediate (decodeInstruction rawInst inst) = immediate inst).
Proof.
  intros Hr.
  rewrite <- (immediate_I_signed rawInst Hr), <- (immediate_S_signed rawInst Hr),
    <- (immediate_B_signed rawInst Hr), <- (immediate_U_upper rawInst Hr),
    <- (immediate_J_signed rawInst Hr).
  rewrite <- opcodeField_mod.
  unfold decodeInstruction, existsb.
  repeat match goal with
    | |- context [if Z.land rawInst 127 =? ?c then _ else _] =>
        destruct (Z.land rawInst 127 =? c) eqn:?
    end;
    repeat match goal with
      | H : (_ =? _) = true |- _ => apply Z.eqb_eq in H; rewrite H in *
      end;
    simpl; repeat split; intros; try reflexivity; try discriminate;
    try lia.
Qed.

(** The immediate of a decoded instruction, by the case of the opcode
    field. *)
Theorem decodeInstruction_immediate (rawInst : Z) (inst : Instruction) :
  0 <= rawInst < 2 ^ 32 ->
  (existsb (Z.eqb (rawInst mod 128)) [19; 3; 103] = true ->
   immediate (decodeInstruction rawInst inst)
   = signedLow 12 (rawInst / 2 ^ 20))
  /\ (rawInst mod 128 = 35 ->
      immediate (decodeInstruction rawInst inst)
      = signedLow 12 (rawInst / 2 ^ 25 * 32 + (rawInst / 2 ^ 7) mod 32))
  /\ (rawInst mod 128 = 99 ->
      immediate (decodeInstruction rawInst inst)
      = signedLow 13
          (rawInst / 2 ^ 31 * 4096 + (rawInst / 2 ^ 7) mod 2 * 2048
           + (rawInst / 2 ^ 25) mod 64 * 32 + (rawInst / 2 ^ 8) mod 16 * 2))
  /\ (existsb (Z.eqb (rawInst mod 128)) [55; 23] = true ->
      immediate (decodeInstruction rawInst inst)
      = to_int32 (rawInst / 2 ^ 12 * 2 ^ 12))
  /\ (rawInst mod 128 = 111 ->
      immediate (decodeInstruction rawInst inst)
      = signedLow 21
          (rawInst / 2 ^ 31 * 1048576 + (rawInst / 2 ^ 12) mod 256 * 4096
           + (rawInst / 2 ^ 20) mod 2 * 2048
           + (rawInst / 2 ^ 21) mod 1024 * 2))
  /\ (existsb (Z.eqb (rawInst mod 128)) [19; 3; 103; 35; 99; 55; 23; 111]
      = false ->
      immediate (decodeInstruction rawInst inst) = immediate inst).
Proof. exact (decodeInstruction_immediate_cases rawInst inst). Qed.

Lemma decodeInstruction_immediate_witness :
  immediate (decodeInstruction 0xFFE00093 Instruction_default) = -2
  /\ immediate (decodeInstruction 0xFE000EE3 Instruction_default) = -4.
Proof.
  destruct (decodeInstruction_immediate 0xFFE00093 Instruction_default
              ltac:(lia)) as (H1 & _).
  destruct (decodeInstruction_immediate 0xFE000EE3 Instruction_default
              ltac:(lia)) as (_ & _ & H2 & _).
  rewrite (H1 eq_refl), (H2 eq_refl). split; reflexivity.
Defined.

Lemma signedLow_even (n v : Z) :
  1 < n -> v mod 2 = 0 -> signedLow n v mod 2 = 0.
Proof.
  intros Hn Hv. unfold signedLow.
  assert (2 ^ n = 2 * 2 ^ (n - 1)) as E
    by (replace n with (1 + (n - 1)) at 1 by lia;
        rewrite Z.pow_add_r by lia; reflexivity).
  assert (0 < 2 ^ (n - 1)) as Hp by (apply Z.pow_pos_nonneg; lia).
  rewrite (Z.mod_eq (v + 2 ^ (n - 1)) (2 ^ n)) by lia.
  set (q := (v + 2 ^ (n - 1)) / 2 ^ n). rewrite E.
  apply Z.mod_divide in Hv as [m Hm]; [|lia]. subst v.
  replace (m * 2 + 2 ^ (n - 1) - 2 * 2 ^ (n - 1) * q - 2 ^ (n - 1))
    with ((m - 2 ^ (n - 1) * q) * 2) by lia.
  apply Z.mod_mul. lia.
Qed.

(** Branch and jump offsets are even and fit 13 and 21 bits. *)
Theorem branch_and_jump_offsets (rawInst : Z) (inst : Instruction) :
  0 <= rawInst < 2 ^ 32 ->
  (rawInst mod 128 = 99 ->
   -4096 <= immediate (decodeInstruction rawInst inst) < 4096
   /\ immediate (decodeInstruction rawInst inst) mod 2 = 0)
  /\ (rawInst mod 128 = 111 ->
      -1048576 <= immediate (decodeInstruction rawInst inst) < 1048576
      /\ immediate (decodeInstruction rawInst inst) mod 2 = 0).
Proof.
  intros Hr.
  destruct (decodeInstruction_immediate_cases rawInst inst Hr)
    as (_ & _ & HB & _ & HJ & _).
  split; intros Hop.
  - rewrite (HB Hop). split.
    + apply (signedLow_range 13). lia.
    + apply signedLow_even; [lia|].
      apply Z.mod_divide; [lia|].
      exists (rawInst / 2 ^ 31 * 2048 + (rawInst / 2 ^ 7) mod 2 * 1024
              + (rawInst / 2 ^ 25) mod 64 * 16 + (rawInst / 2 ^ 8) mod 16).
      lia.
  - rewrite (HJ Hop). split.
    + apply (signedLow_range 21). lia.
    + apply signedLow_even; [lia|].
      apply Z.mod_divide; [lia|].
      exists (rawInst / 2 ^ 31 * 524288 + (rawInst / 2 ^ 12) mod 256 * 2048
              + (rawInst / 2 ^ 20) mod 2 * 1024 + (rawInst / 2 ^ 21) mod 1024).
      lia.
Qed.

Lemma decodeInstruction_format_witness :
  Opcode_format (opcode (decodeInstruction 0x002081B3 Instruction_default))
  = Some R_TYPE.
Proof.
  exact (decodeInstruction_format 0x002081B3 Instruction_default
           ltac:(discriminate)).
Defined.

Lemma branch_and_jump_offsets_witness :
  immediate (decodeInstruction 0xFE000EE3 Instruction_default) mod 2 = 0
  /\ immediate (decodeInstruction 0x008000EF Instruction_default) mod 2 = 0.
Proof.
  destruct (branch_and_jump_offsets 0xFE000EE3 Instruction_default
              ltac:(lia)) as (HB & _).
  destruct (branch_and_jump_offsets 0x008000EF Instruction_default
              ltac:(lia)) as (_ & HJ).
  split; [exact (proj2 (HB eq_refl)) | exact (proj2 (HJ eq_refl))].
Defined.

(** ** Control signals of decoded instructions *)

(** For every word that decodes to a defined opcode, the control signals
    follow from the opcode alone. *)
Theorem control_signals_of_decoded (rawInst : Z) (inst : Instruction) :
  opcode (decodeInstruction rawInst inst) <> INVALID ->
  let op := opcode (decodeInstruction rawInst inst) in
  let control := setControlSignals (decodeInstruction rawInst inst) in
  regWrite control = negb (isStore op || isConditionalBranch op)
  /\ memRead control = isLoad op
  /\ memToReg control = isLoad op
  /\ memWrite control = isStore op
  /\ branch control = isConditionalBranch op
  /\ jump control = isJump op
  /\ aluSrc control
     = (isImmediateArithmetic op || isLoad op || isStore op
        || isUpperImmediate op).
Proof.
  decode_cases; simpl; intros; try congruence; repeat split.
Qed.

Lemma control_signals_of_decoded_witness :
  memRead (setControlSignals (decodeInstruction 0x00002083 Instruction_default))
  = true
  /\ regWrite
       (setControlSignals (decodeInstruction 0x00102223 Instruction_default))
     = false.
Proof.
  destruct (control_signals_of_decoded 0x00002083 Instruction_default
              ltac:(discriminate)) as (_ & H1 & _).
  destruct (control_signals_of_decoded 0x00102223 Instruction_default
              ltac:(discriminate)) as (H2 & _).
  split; [exact H1 | exact H2].
Defined.

(** ** Shape of the storage and the counters *)

Lemma storeValue_length memory op address value :
  length (storeValue memory op address value) = length memory.
Proof.
  unfold storeValue. destruct op; try reflexivity;
    apply DataMemory_write_length.
Qed.

Lemma writeBackStage_regFile_length c :
  length (regFile (writeBackStage c)) = length (regFile c).
Proof.
  unfold writeBackStage.
  destruct (negb (memwb_valid (memWb c))); [reflexivity|].
  destruct (regWrite _ && _); simpl; [|reflexivity].
  apply RegisterFile_write_length.
Qed.

Lemma memoryStage_dataMem_length c :
  length (dataMem (memoryStage c)) = length (dataMem c).
Proof.
  unfold memoryStage.
  destruct (negb (exmem_valid (exMem c))); [reflexivity|].
  destruct (memWrite _); simpl; [|reflexivity].
  apply storeValue_length.
Qed.

(** The program image is never written, and the register file and the data
    memory keep their sizes, from any processor object, for any cycle count
    and either forwarding setting. *)
Theorem storage_shape_invariant
    (cpu : Processor) (cycles : Z) (isForwarding : bool) :
  instMem (executePipeline cpu cycles isForwarding) = instMem cpu
  /\ length (regFile (executePipeline cpu cycles isForwarding))
     = length (regFile cpu)
  /\ length (dataMem (executePipeline cpu cycles isForwarding))
     = length (dataMem cpu).
Proof.
  apply (executePipeline_invariant
           (fun c => instMem c = instMem cpu
                     /\ length (regFile c) = length (regFile cpu)
                     /\ length (dataMem c) = length (dataMem cpu))).
  - repeat split.
  - intros c (H1 & H2 & H3).
    destruct (cycle_storage isForwarding c) as (-> & -> & -> & _).
    unfold afterMemory, afterWriteBack.
    rewrite writeBackStage_regFile_length, memoryStage_dataMem_length.
    destruct (writeBackStage_frame (set_clockCycle (clockCycle c + 1) c))
      as (_ & _ & -> & _).
    repeat split; assumption.
Qed.

Lemma stages_clockCycle isForwarding c stall :
  clockCycle (writeBackStage c) = clockCycle c
  /\ clockCycle (memoryStage c) = clockCycle c
  /\ clockCycle (executeStage c isForwarding) = clockCycle c
  /\ clockCycle (instructionDecodeStage c stall isForwarding).1.1.1
     = clockCycle c
  /\ clockCycle (instructionFetchStage c stall isForwarding).1 = clockCycle c.
Proof.
  unfold writeBackStage, memoryStage, executeStage, instructionDecodeStage,
    instructionFetchStage.
  repeat split; stage_cases; reflexivity.
Qed.

Lemma cycle_clockCycle isForwarding c :
  clockCycle (cycle isForwarding c) = clockCycle c + 1.
Proof.
  unfold cycle, cycleStages.
  fold (afterWriteBack c). fold (afterMemory c).
  fold (afterExecute isForwarding c).
  destruct (stages_clockCycle isForwarding (afterExecute isForwarding c) false)
    as (_ & _ & _ & D & _).
  destruct (instructionDecodeStage _ _ _) as [[[c1 st] bt] tg].
  destruct (stages_clockCycle isForwarding c1 st) as (_ & _ & _ & _ & F).
  destruct (instructionFetchStage c1 st isForwarding) as [c2 st'].
  simpl in D, F.
  assert (clockCycle c2 = clockCycle c + 1) as E.
  { rewrite F, D. unfold afterExecute, afterMemory, afterWriteBack.
    destruct (stages_clockCycle isForwarding
                (memoryStage
                   (writeBackStage (set_clockCycle (clockCycle c + 1) c)))
                false) as (_ & _ & -> & _).
    destruct (stages_clockCycle isForwarding
                (writeBackStage (set_clockCycle (clockCycle c + 1) c))
                false) as (_ & -> & _).
    destruct (stages_clockCycle isForwarding
                (set_clockCycle (clockCycle c + 1) c) false) as (-> & _).
    reflexivity. }
  destruct bt; destruct (exMemRedirect _); simpl; exact E.
Qed.

(** The cycle counter ends at the number of iterations, and the number of
    retired instructions never exceeds it: at most one instruction retires
    per cycle. *)
Theorem counters_after_run
    (cpu : Processor) (cycles : Z) (isForwarding : bool) :
  clockCycle (executePipeline cpu cycles isForwarding) = Z.max 0 cycles
  /\ 0 <= instructionsExecuted (executePipeline cpu cycles isForwarding)
     <= clockCycle (executePipeline cpu cycles isForwarding).
Proof.
  unfold executePipeline.
  replace (Z.max 0 cycles) with (Z.of_nat (Z.to_nat cycles)) by lia.
  induction (Z.to_nat cycles) as [|n (IH1 & IH2)].
  - simpl. lia.
  - rewrite Nat2Z.inj_succ. simpl Nat.iter.
    rewrite cycle_clockCycle.
    destruct (cycle_storage isForwarding
                (Nat.iter n (cycle isForwarding) (startPipeline cpu)))
      as (_ & _ & _ & ->).
    unfold afterWriteBack, writeBackStage. simpl.
    destruct (memwb_valid _); simpl; [|lia].
    destruct (regWrite _ && _); simpl; lia.
Qed.

(** ** One stage per cycle *)

Lemma cycle_downstream isForwarding c :
  idEx (cycle isForwarding c) = idEx (beforeFetch isForwarding c)
  /\ exMem (cycle isForwarding c) = exMem (afterExecute isForwarding c)
  /\ memWb (cycle isForwarding c) = memWb (afterMemory c).
Proof.
  unfold cycle, cycleStages, beforeFetch.
  fold (afterWriteBack c). fold (afterMemory c).
  fold (afterExecute isForwarding c).
  pose proof (instructionDecodeStage_frame (afterExecute isForwarding c)
                isForwarding false) as D.
  destruct (instructionDecodeStage _ _ _) as [[[c1 st] bt] tg].
  pose proof (instructionFetchStage_frame c1 isForwarding st) as F.
  destruct (instructionFetchStage c1 st isForwarding) as [c2 st'].
  simpl in D, F.
  destruct D as (_ & _ & _ & _ & _ & D1 & D2 & _).
  destruct F as (_ & _ & _ & F0 & F1 & F2 & _).
  pose proof (executeStage_frame (afterMemory c) isForwarding) as E.
  simpl in E. destruct E as (_ & _ & _ & _ & _ & _ & E2 & _).
  fold (afterExecute isForwarding c) in E2.
  assert (idEx c2 = idEx c1 /\ exMem c2 = exMem (afterExecute isForwarding c)
          /\ memWb c2 = memWb (afterMemory c)) as (H0 & H1 & H2)
    by (repeat split; congruence).
  destruct bt; destruct (exMemRedirect _); simpl; auto.
Qed.

Lemma executeStage_latches c isForwarding :
  exmem_valid (exMem (executeStage c isForwarding)) = idex_valid (idEx c)
  /\ (idex_valid (idEx c) = true ->
      exmem_pc (exMem (executeStage c isForwarding)) = idex_pc (idEx c)
      /\ exmem_instruction (exMem (executeStage c isForwarding))
         = idex_instruction (idEx c)
      /\ exmem_control (exMem (executeStage c isForwarding))
         = idex_control (idEx c)).
Proof.
  unfold executeStage. destruct (idex_valid (idEx c)); simpl.
  - repeat split.
  - split; [reflexivity | discriminate].
Qed.

Lemma memoryStage_latches c :
  memwb_valid (memWb (memoryStage c)) = exmem_valid (exMem c)
  /\ (exmem_valid (exMem c) = true ->
      memwb_pc (memWb (memoryStage c)) = exmem_pc (exMem c)
      /\ memwb_instruction (memWb (memoryStage c))
         = exmem_instruction (exMem c)
      /\ memwb_control (memWb (memoryStage c)) = exmem_control (exMem c)
      /\ memwb_aluResult (memWb (memoryStage c))
         = result (exmem_aluResult (exMem c))).
Proof.
  unfold memoryStage. destruct (exmem_valid (exMem c)); simpl.
  - repeat split.
  - split; [reflexivity | discriminate].
Qed.

(** Validity moves down one stage per cycle, and a valid entry takes its
    address, instruction and control signals with it: EX/MEM after a cycle
    is what ID/EX held before it, MEM/WB is what EX/MEM held. *)
Theorem pipeline_registers_advance (isForwarding : bool) (c : Processor) :
  exmem_valid (exMem (cycle isForwarding c)) = idex_valid (idEx c)
  /\ memwb_valid (memWb (cycle isForwarding c)) = exmem_valid (exMem c)
  /\ (idex_valid (idEx c) = true ->
      exmem_pc (exMem (cycle isForwarding c)) = idex_pc (idEx c)
      /\ exmem_instruction (exMem (cycle isForwarding c))
         = idex_instruction (idEx c)
      /\ exmem_control (exMem (cycle isForwarding c)) = idex_control (idEx c))
  /\ (exmem_valid (exMem c) = true ->
      memwb_pc (memWb (cycle isForwarding c)) = exmem_pc (exMem c)
      /\ memwb_instruction (memWb (cycle isForwarding c))
         = exmem_instruction (exMem c)
      /\ memwb_control (memWb (cycle isForwarding c))
         = exmem_control (exMem c)
      /\ memwb_aluResult (memWb (cycle isForwarding c))
         = result (exmem_aluResult (exMem c))).
Proof.
  destruct (cycle_downstream isForwarding c) as (_ & -> & ->).
  unfold afterExecute, afterMemory.
  destruct (memoryStage_frame (afterWriteBack c))
    as (_ & _ & _ & _ & M1 & _).
  simpl in M1.
  destruct (writeBackStage_frame (set_clockCycle (clockCycle c + 1) c))
    as (_ & _ & _ & _ & W1 & W2 & _).
  fold (afterWriteBack c) in W1, W2. simpl in W1, W2.
  destruct (executeStage_latches (memoryStage (afterWriteBack c)) isForwarding)
    as (E1 & E2).
  destruct (memoryStage_latches (afterWriteBack c)) as (M3 & M4).
  rewrite M1, W1 in E1, E2. rewrite W2 in M3, M4.
  split; [exact E1|]. split; [exact M3|]. split; [exact E2 | exact M4].
Qed.

Lemma pipeline_registers_advance_witness :
  exmem_instruction (exMem (cycle true stateAddBranch))
  = idex_instruction (idEx stateAddBranch).
Proof.
  destruct (pipeline_registers_advance true stateAddBranch)
    as (_ & _ & H & _).
  assert (idex_valid (idEx stateAddBranch) = true) as V
    by (vm_compute; reflexivity).
  exact (proj1 (proj2 (H V))).
Defined.

(** ** Stalls and redirects *)

Lemma executePipeline_branch_fields cpu cycles isForwarding :
  exMemBranchFieldsUnused (executePipeline cpu cycles isForwarding).
Proof.
  apply executePipeline_invariant.
  - repeat split.
  - intros s Hs. now apply cycle_branch_fields.
Qed.

Lemma afterExecute_upstream isForwarding c :
  pc (afterExecute isForwarding c) = pc c
  /\ ifId (afterExecute isForwarding c) = ifId c.
Proof.
  unfold afterExecute, afterMemory, afterWriteBack.
  destruct (executeStage_frame
              (memoryStage (writeBackStage (set_clockCycle (clockCycle c + 1) c)))
              isForwarding) as (-> & _ & _ & _ & -> & _).
  destruct (memoryStage_frame
              (writeBackStage (set_clockCycle (clockCycle c + 1) c)))
    as (-> & _ & _ & -> & _).
  destruct (writeBackStage_frame (set_clockCycle (clockCycle c + 1) c))
    as (-> & _ & _ & -> & _).
  split; reflexivity.
Qed.

(** What the decode stage returns together with a raised stall flag. *)
Lemma instructionDecodeStage_stalled s isForwarding c1 bt tg :
  instructionDecodeStage s false isForwarding = (c1, true, bt, tg) ->
  bt = false /\ pc c1 = pc s /\ ifId c1 = ifId s
  /\ idex_valid (idEx c1) = false.
Proof.
  unfold instructionDecodeStage.
  destruct (negb (ifid_valid (ifId s))); [discriminate|].
  destruct (detectHazardF _ _ _ _ _ _).
  - intros H. injection H as <- <- <-. repeat split.
  - destruct (_ && _ && needsStall s).
    + intros H. injection H as <- <- <-. repeat split.
    + destruct (if isBranchOrJump _ then _ else _). discriminate.
Qed.

(** What the decode stage returns together with a taken branch or jump. *)
Lemma instructionDecodeStage_taken s isForwarding c1 st tg :
  instructionDecodeStage s false isForwarding = (c1, st, true, tg) ->
  st = false /\ idex_valid (idEx c1) = true
  /\ branch (idex_control (idEx c1)) = false
  /\ jump (idex_control (idEx c1)) = false
  /\ idex_pc (idEx c1) = ifid_pc (ifId s)
  /\ idex_instruction (idEx c1) = ifid_instruction (ifId s).
Proof.
  unfold instructionDecodeStage.
  destruct (negb (ifid_valid (ifId s))); [discriminate|].
  destruct (detectHazardF _ _ _ _ _ _); [discriminate|].
  destruct (_ && _ && needsStall s); [discriminate|].
  destruct (if isBranchOrJump _ then _ else _) as [bt' tg'].
  intros H. injection H as <- <- -> <-. simpl. repeat split.
Qed.

(** A stall raised by the decode stage holds the program counter and IF/ID
    as they are and puts a bubble into ID/EX. *)
Theorem stall_holds_fetch
    (cpu c : Processor) (cycles : Z) (isForwarding : bool) :
  c = executePipeline cpu cycles isForwarding ->
  decodeStall (afterExecute isForwarding c) isForwarding = true ->
  pc (cycle isForwarding c) = pc c
  /\ ifId (cycle isForwarding c) = ifId c
  /\ idex_valid (idEx (cycle isForwarding c)) = false.
Proof.
  intros Hc Hst.
  assert (exMemBranchFieldsUnused c) as I
    by (subst c; apply executePipeline_branch_fields).
  destruct (cycle_branch_fields isForwarding c I) as (-> & _).
  destruct (afterExecute_upstream isForwarding c) as (Hpc & Hif).
  unfold decodeStall in Hst. unfold cycleStages.
  fold (afterWriteBack c). fold (afterMemory c).
  fold (afterExecute isForwarding c).
  destruct (instructionDecodeStage _ _ _) as [[[c1 st] bt] tg] eqn:Hd.
  simpl in Hst. subst st.
  apply instructionDecodeStage_stalled in Hd as (-> & H1 & H2 & H3).
  unfold instructionFetchStage. simpl.
  repeat split; congruence.
Qed.

Lemma stall_holds_fetch_witness :
  pc (cycle true (executePipeline (Processor_new programAddBranch) 2 true))
  = pc (executePipeline (Processor_new programAddBranch) 2 true).
Proof.
  assert (decodeStall
            (afterExecute true
               (executePipeline (Processor_new programAddBranch) 2 true))
            true = true) as H by (vm_compute; reflexivity).
  exact (proj1 (stall_holds_fetch (Processor_new programAddBranch) _ 2 true
                  eq_refl H)).
Defined.

(** A branch or jump that decode reports taken moves the program counter to
    its target in the same cycle and discards what the fetch stage latched;
    the instruction itself goes on into ID/EX with its branch and jump
    signals cleared. *)
Theorem taken_branch_redirects
    (cpu c c1 : Processor) (cycles target : Z) (isForwarding stall : bool) :
  c = executePipeline cpu cycles isForwarding ->
  instructionDecodeStage (afterExecute isForwarding c) false isForwarding
  = (c1, stall, true, target) ->
  pc (cycle isForwarding c) = target
  /\ ifid_valid (ifId (cycle isForwarding c)) = false
  /\ idex_valid (idEx (cycle isForwarding c)) = true
  /\ idex_pc (idEx (cycle isForwarding c)) = ifid_pc (ifId c)
  /\ idex_instruction (idEx (cycle isForwarding c))
     = ifid_instruction (ifId c)
  /\ branch (idex_control (idEx (cycle isForwarding c))) = false
  /\ jump (idex_control (idEx (cycle isForwarding c))) = false.
Proof.
  intros Hc Hd.
  assert (exMemBranchFieldsUnused c) as I
    by (subst c; apply executePipeline_branch_fields).
  destruct (cycle_branch_fields isForwarding c I) as (-> & _).
  destruct (afterExecute_upstream isForwarding c) as (_ & Hif).
  unfold cycleStages.
  fold (afterWriteBack c). fold (afterMemory c).
  fold (afterExecute isForwarding c).
  rewrite Hd.
  apply instructionDecodeStage_taken in Hd as (-> & V & B & J & P & N).
  pose proof (instructionFetchStage_frame c1 isForwarding false) as F.
  destruct (instructionFetchStage c1 false isForwarding) as [c2 st'].
  simpl in F. destruct F as (_ & _ & _ & F1 & _).
  unfold redirect; simpl. rewrite F1, <- Hif. repeat split; assumption.
Qed.

Lemma taken_branch_redirects_witness :
  pc (cycle true (executePipeline (Processor_new programJal) 1 true)) = 8.
Proof.
  assert (instructionDecodeStage
            (afterExecute true
               (executePipeline (Processor_new programJal) 1 true))
            false true
          = ((instructionDecodeStage
                (afterExecute true
                   (executePipeline (Processor_new programJal) 1 true))
                false true).1.1.1, false, true, 8)) as H
    by (vm_compute; reflexivity).
  exact (proj1 (taken_branch_redirects (Processor_new programJal) _ _ 1 8 true
                  false eq_refl H)).
Defined.

(** ** A drained pipeline *)

Lemma ifid_invalidate_invalid r :
  ifid_valid r = false -> ifid_invalidate r = r.
Proof. destruct r; simpl; intros ->; reflexivity. Qed.

Lemma idex_invalidate_invalid r :
  idex_valid r = false -> idex_invalidate r = r.
Proof. destruct r; simpl; intros ->; reflexivity. Qed.

Lemma exmem_invalidate_invalid r :
  exmem_valid r = false -> exmem_invalidate r = r.
Proof. destruct r; simpl; intros ->; reflexivity. Qed.

Lemma memwb_invalidate_invalid r :
  memwb_valid r = false -> memwb_invalidate r = r.
Proof. destruct r; simpl; intros ->; reflexivity. Qed.

(** Once nothing is in flight and the program counter has no trace entry,
    a cycle only advances the cycle counter: registers, memory, program
    counter, pipeline registers and the retired count stay as they are. *)
Theorem drained_pipeline_only_counts (isForwarding : bool) (c : Processor) :
  drained c ->
  cycle isForwarding c = set_clockCycle (clockCycle c + 1) c.
Proof.
  intros (H1 & H2 & H3 & H4 & H5).
  unfold cycle, cycleStages, writeBackStage. simpl. rewrite H4. simpl.
  unfold memoryStage. simpl. rewrite H3. simpl.
  unfold executeStage. simpl. rewrite H2. simpl.
  unfold instructionDecodeStage. simpl. rewrite H1. simpl.
  unfold instructionFetchStage. simpl. rewrite H5. simpl.
  unfold exMemRedirect. simpl. rewrite ?H3. simpl.
  unfold set_ifId, set_idEx, set_exMem, set_memWb, set_clockCycle. simpl.
  rewrite (ifid_invalidate_invalid _ H1), (idex_invalidate_invalid _ H2),
    (exmem_invalidate_invalid _ H3), (memwb_invalidate_invalid _ H4).
  reflexivity.
Qed.

Lemma regFile_set_clockCycle v c : regFile (set_clockCycle v c) = regFile c.
Proof. reflexivity. Qed.

Lemma drained_pipeline_only_counts_witness :
  regFile (cycle true (executePipeline (Processor_new programAddChain) 9 true))
  = regFile (executePipeline (Processor_new programAddChain) 9 true).
Proof.
  assert (drained (executePipeline (Processor_new programAddChain) 9 true))
    as D by (vm_compute; repeat split).
  rewrite (drained_pipeline_only_counts true _ D).
  apply regFile_set_clockCycle.
Defined.

(** ** What one cycle commits *)

(** Seen through [RegisterFile::read], a cycle changes at most one register:
    the destination of a valid MEM/WB entry with [regWrite] set, when it is
    one of x1..x31; that register then reads as the memory data or the ALU
    result of the entry, by [memToReg]. *)
Theorem cycle_commits_one_register
    (isForwarding : bool) (c : Processor) (reg : Z) :
  length (regFile c) = 32%nat ->
  RegisterFile_read (regFile (cycle isForwarding c)) reg
  = if memwb_valid (memWb c) && regWrite (memwb_control (memWb c))
       && (reg =? rd (memwb_instruction (memWb c)))
       && (0 <? reg) && (reg <? 32)
    then if memToReg (memwb_control (memWb c)) then memwb_readData (memWb c)
         else memwb_aluResult (memWb c)
    else RegisterFile_read (regFile c) reg.
Proof.
  intros Hlen.
  destruct (cycle_storage isForwarding c) as (-> & _).
  unfold afterWriteBack, writeBackStage. simpl.
  destruct (memwb_valid (memWb c)); simpl; [|reflexivity].
  destruct (regWrite (memwb_control (memWb c))); simpl; [|reflexivity].
  destruct (rd (memwb_instruction (memWb c)) =? 0) eqn:H0; simpl.
  - apply Z.eqb_eq in H0. rewrite H0.
    destruct (reg =? 0) eqn:Hr; simpl; [|reflexivity].
    apply Z.eqb_eq in Hr. subst reg. reflexivity.
  - rewrite RegisterFile_read_write by exact Hlen.
    destruct (reg =? rd (memwb_instruction (memWb c))) eqn:Hr; simpl;
      [|reflexivity].
    apply Z.eqb_eq in Hr. rewrite <- Hr. reflexivity.
Qed.

Lemma cycle_commits_one_register_witness :
  RegisterFile_read
    (regFile (cycle true
                (executePipeline (Processor_new programAddChain) 4 true))) 1
  = 5.
Proof.
  rewrite (cycle_commits_one_register true
             (executePipeline (Processor_new programAddChain) 4 true) 1)
    by (vm_compute; reflexivity).
  vm_compute. reflexivity.
Defined.

(** ** Fetching inside the program *)

Lemma isTracked_app traces more a :
  isTracked (traces ++ more) a = isTracked traces a || isTracked more a.
Proof. unfold isTracked. apply existsb_app. Qed.

Lemma initInstructionTrace_keeps traces a b :
  isTracked traces a = true ->
  isTracked (initInstructionTrace traces b) a = true.
Proof.
  intros H. unfold initInstructionTrace.
  destruct (isTracked traces b); [exact H|].
  rewrite isTracked_app, H. reflexivity.
Qed.

Lemma initInstructionTrace_tracks traces a :
  isTracked (initInstructionTrace traces a) a = true.
Proof.
  unfold initInstructionTrace.
  destruct (isTracked traces a) eqn:H; [exact H|].
  rewrite isTracked_app. unfold isTracked at 2. simpl.
  rewrite Z.eqb_refl. apply orb_true_r.
Qed.

Lemma initialTraces_tracks (size i : nat) :
  (i < size)%nat ->
  isTracked (initialTraces size) (to_uint32 (Z.of_nat i * 4)) = true.
Proof.
  intros Hi. unfold initialTraces.
  assert (forall l acc,
             isTracked acc (to_uint32 (Z.of_nat i * 4)) = true
             \/ In i l ->
             isTracked
               (fold_left
                  (fun traces k =>
                     initInstructionTrace traces (to_uint32 (Z.of_nat k * 4)))
                  l acc) (to_uint32 (Z.of_nat i * 4)) = true) as Hgen.
  { induction l as [|k l IH]; intros acc [H|H]; simpl.
    - exact H.
    - destruct H.
    - apply IH. left. now apply initInstructionTrace_keeps.
    - apply IH. destruct H as [->|H]; [left|right; exact H].
      apply initInstructionTrace_tracks. }
  apply Hgen. right. apply in_seq. lia.
Qed.

Lemma programTracked_grows c c' :
  instMem c' = instMem c ->
  (forall a, isTracked (instructionTraces c) a = true ->
             isTracked (instructionTraces c') a = true) ->
  programTracked c -> programTracked c'.
Proof.
  unfold programTracked. intros Hm Ht H i Hi. rewrite Hm in Hi. auto.
Qed.

Lemma instructionDecodeStage_tracked c stall isForwarding :
  programTracked c ->
  programTracked (instructionDecodeStage c stall isForwarding).1.1.1.
Proof.
  intros Ht. unfold instructionDecodeStage.
  destruct (negb (ifid_valid (ifId c))); [exact Ht|].
  destruct (detectHazardF _ _ _ _ _ _).
  - destruct (negb (isTracked _ _) && _); simpl; [|exact Ht].
    eapply programTracked_grows; [| |exact Ht]; simpl; [reflexivity|].
    intros a. apply initInstructionTrace_keeps.
  - destruct (_ && _ && needsStall c); [exact Ht|].
    destruct (if isBranchOrJump _ then _ else _); exact Ht.
Qed.

Lemma beforeFetch_tracked isForwarding c :
  programTracked c -> programTracked (beforeFetch isForwarding c).
Proof.
  intros Ht. apply instructionDecodeStage_tracked.
  pose proof (writeBackStage_frame (set_clockCycle (clockCycle c + 1) c)) as W.
  pose proof (memoryStage_frame (afterWriteBack c)) as M.
  pose proof (executeStage_frame (afterMemory c) isForwarding) as E.
  simpl in W, M, E.
  destruct W as (_ & W1 & _ & _ & _ & _ & _ & W2).
  destruct M as (_ & M1 & _ & _ & _ & _ & M2 & _).
  destruct E as (_ & E1 & _ & _ & _ & _ & _ & E2 & _).
  unfold programTracked, afterExecute in *.
  rewrite E1, E2.
  fold (afterMemory c). unfold afterMemory. rewrite M1, M2.
  fold (afterWriteBack c). unfold afterWriteBack. rewrite W1, W2.
  exact Ht.
Qed.

Lemma cycle_tracked isForwarding c :
  programTracked c -> programTracked (cycle isForwarding c).
Proof.
  intros Ht. apply (beforeFetch_tracked isForwarding) in Ht.
  unfold beforeFetch in Ht. unfold cycle, cycleStages.
  fold (afterWriteBack c). fold (afterMemory c).
  fold (afterExecute isForwarding c).
  destruct (instructionDecodeStage _ _ _) as [[[c1 st] bt] tg].
  simpl in Ht.
  pose proof (instructionFetchStage_frame c1 isForwarding st) as F.
  destruct (instructionFetchStage c1 st isForwarding) as [c2 st'].
  simpl in F. destruct F as (F1 & _ & _ & _ & _ & _ & F2 & _).
  assert (programTracked c2) as H2
    by (unfold programTracked in *; rewrite F1, F2; exact Ht).
  destruct bt; destruct (exMemRedirect _); exact H2.
Qed.

Lemma executePipeline_tracked cpu cycles isForwarding :
  programTracked (executePipeline cpu cycles isForwarding).
Proof.
  apply executePipeline_invariant.
  - intros i Hi. simpl in *. now apply initialTraces_tracks.
  - intros c. apply cycle_tracked.
Qed.

(** Whenever the driver calls the fetch stage, not held by a stall, with the
    program counter at a word of the program, the stage latches that word,
    decoded into the instruction object of IF/ID, marks IF/ID valid, and
    moves the program counter to the next word. *)
Theorem fetch_in_program
    (cpu c : Processor) (cycles : Z) (isForwarding : bool) (i : nat) :
  c = beforeFetch isForwarding (executePipeline cpu cycles isForwarding) ->
  pc c = Z.of_nat i * 4 ->
  (i < length (instMem c))%nat ->
  Z.of_nat (length (instMem c)) < 2 ^ 30 ->
  ifId (instructionFetchStage c false isForwarding).1
  = mkIF_ID (pc c)
      (decodeInstruction (default 0 (instMem c !! i))
         (ifid_instruction (ifId c))) true
  /\ pc (instructionFetchStage c false isForwarding).1 = pc c + 4.
Proof.
  intros Hc Hpc Hi Hlen.
  assert (programTracked c) as Ht
    by (subst c; apply beforeFetch_tracked, executePipeline_tracked).
  specialize (Ht i Hi).
  rewrite to_uint32_small in Ht
    by (change (2 ^ 32) with (4 * 2 ^ 30); lia).
  rewrite <- Hpc in Ht.
  unfold instructionFetchStage. rewrite Ht. simpl.
  unfold readInstruction.
  assert (pc c / 4 = Z.of_nat i) as Hdiv
    by (rewrite Hpc; apply Z.div_mul; lia).
  rewrite Hdiv.
  destruct (Z.of_nat i <? Z.of_nat (length (instMem c))) eqn:Hlt;
    [|apply Z.ltb_ge in Hlt; lia].
  rewrite Nat2Z.id. split; [reflexivity|].
  apply to_uint32_small. change (2 ^ 32) with (4 * 2 ^ 30). lia.
Qed.

Lemma fetch_in_program_witness :
  pc (instructionFetchStage
        (beforeFetch true
           (executePipeline (Processor_new programAddChain) 1 true))
        false true).1 = 8.
Proof.
  set (c := beforeFetch true
              (executePipeline (Processor_new programAddChain) 1 true)).
  assert (pc c = Z.of_nat 1 * 4) as Hpc by (vm_compute; reflexivity).
  assert ((1 < length (instMem c))%nat) as Hi by (vm_compute; lia).
  assert (Z.of_nat (length (instMem c)) < 2 ^ 30) as Hlen
    by (vm_compute; reflexivity).
  destruct (fetch_in_program (Processor_new programAddChain) c 1 true 1
              (eq_refl c) Hpc Hi Hlen) as (_ & H).
  rewrite H, Hpc. reflexivity.
Defined.

(** ** Register indices in flight *)

Lemma stages_fields_in_range isForwarding c stall :
  latchedFieldsInRange c ->
  latchedFieldsInRange (writeBackStage c)
  /\ latchedFieldsInRange (memoryStage c)
  /\ latchedFieldsInRange (executeStage c isForwarding)
  /\ latchedFieldsInRange (instructionDecodeStage c stall isForwarding).1.1.1
  /\ latchedFieldsInRange (instructionFetchStage c stall isForwarding).1.
Proof.
  intros (H1 & H2 & H3 & H4).
  pose proof (decodeInstruction_fields_in_range
                (readInstruction (instMem c) (pc c)) _ H1) as Hd.
  unfold latchedFieldsInRange, registerFieldsInRange, writeBackStage,
    memoryStage, executeStage, instructionDecodeStage, instructionFetchStage
    in *.
  repeat split; stage_cases; simpl; lia.
Qed.

Lemma cycle_fields_in_range isForwarding c :
  latchedFieldsInRange c -> latchedFieldsInRange (cycle isForwarding c).
Proof.
  intros H. unfold cycle, cycleStages.
  assert (latchedFieldsInRange (set_clockCycle (clockCycle c + 1) c)) as H0
    by exact H.
  apply (stages_fields_in_range isForwarding _ false) in H0 as (H0 & _).
  apply (stages_fields_in_range isForwarding _ false) in H0 as (_ & H0 & _).
  apply (stages_fields_in_range isForwarding _ false) in H0 as (_ & _ & H0 & _).
  apply (stages_fields_in_range isForwarding _ false) in H0
    as (_ & _ & _ & H0 & _).
  destruct (instructionDecodeStage _ _ _) as [[[c1 st] bt] tg].
  simpl in H0.
  apply (stages_fields_in_range isForwarding _ st) in H0
    as (_ & _ & _ & _ & H0).
  destruct (instructionFetchStage c1 st isForwarding) as [c2 st'].
  simpl in H0.
  assert (forall t x, latchedFieldsInRange x ->
                      latchedFieldsInRange (redirect t x)) as Hred
    by (intros t x Hx; exact Hx).
  destruct bt; [apply (Hred tg) in H0|];
    destruct (exMemRedirect _); auto.
Qed.

(** In every state the driver reaches, the destination and source indices
    of every instruction in flight lie between -1 and 31: no stage asks the
    register file for an index above 31. *)
Theorem register_indices_in_range
    (cpu : Processor) (cycles : Z) (isForwarding : bool) :
  latchedFieldsInRange (executePipeline cpu cycles isForwarding).
Proof.
  apply executePipeline_invariant.
  - unfold latchedFieldsInRange, registerFieldsInRange. simpl. lia.
  - intros c. apply cycle_fields_in_range.
Qed.

(** ** Hazards with and without forwarding *)

(** An instruction of the U or J format raises no hazard in the hazard
    detection unit, whatever is in flight. *)
Theorem upper_and_jal_never_hazard
    (ifId : IF_ID_Register) (idEx : ID_EX_Register) (exMem : EX_MEM_Register)
    (memWb : MEM_WB_Register) (isForwarding isIFStage : bool) :
  format (ifid_instruction ifId) = U_TYPE
  \/ format (ifid_instruction ifId) = J_TYPE ->
  detectHazardF ifId idEx exMem memWb isForwarding isIFStage = false.
Proof.
  intros Hf.
  assert (forall r, readsRegister (ifid_instruction ifId) r = false) as Hr.
  { intros r. unfold readsRegister, usesRs1, usesRs2.
    destruct Hf as [-> | ->]; simpl; rewrite !andb_false_r; reflexivity. }
  unfold detectHazardF. rewrite !Hr, !andb_false_r.
  destruct (negb (ifid_valid ifId)); [reflexivity|].
  destruct (isIFStage && negb (isBranchOrJump (ifid_instruction ifId)));
    [reflexivity|].
  destruct isForwarding; simpl; rewrite ?andb_false_r; reflexivity.
Qed.

Lemma upper_and_jal_never_hazard_witness :
  detectHazardF
    (mkIF_ID 0 (decodeInstruction 0x008000EF Instruction_default) true)
    ID_EX_default EX_MEM_default MEM_WB_default true false = false.
Proof.
  apply upper_and_jal_never_hazard. right. reflexivity.
Defined.

Lemma setControlSignals_load_writes i :
  memRead (setControlSignals i) = true -> regWrite (setControlSignals i) = true.
Proof.
  unfold setControlSignals.
  destruct (format i); simpl; try discriminate; stage_cases;
    simpl; auto; discriminate.
Qed.

Lemma stages_loads_write isForwarding c stall :
  loadsWriteRegisters c ->
  loadsWriteRegisters (writeBackStage c)
  /\ loadsWriteRegisters (memoryStage c)
  /\ loadsWriteRegisters (executeStage c isForwarding)
  /\ loadsWriteRegisters (instructionDecodeStage c stall isForwarding).1.1.1
  /\ loadsWriteRegisters (instructionFetchStage c stall isForwarding).1.
Proof.
  intros (H1 & H2 & H3).
  pose proof (setControlSignals_load_writes (ifid_instruction (ifId c))) as Hs.
  unfold loadsWriteRegisters, writeBackStage, memoryStage, executeStage,
    instructionDecodeStage, instructionFetchStage.
  repeat split; stage_cases; simpl;
    first [assumption | intros; auto; congruence].
Qed.

Lemma cycle_loads_write isForwarding c :
  loadsWriteRegisters c -> loadsWriteRegisters (cycle isForwarding c).
Proof.
  intros H. unfold cycle, cycleStages.
  assert (loadsWriteRegisters (set_clockCycle (clockCycle c + 1) c)) as H0
    by exact H.
  apply (stages_loads_write isForwarding _ false) in H0 as (H0 & _).
  apply (stages_loads_write isForwarding _ false) in H0 as (_ & H0 & _).
  apply (stages_loads_write isForwarding _ false) in H0 as (_ & _ & H0 & _).
  pose proof H0 as Hx.
  apply (stages_loads_write isForwarding _ false) in H0
    as (_ & _ & _ & H0 & _).
  destruct (instructionDecodeStage _ _ _) as [[[c1 st] bt] tg].
  simpl in H0.
  apply (stages_loads_write isForwarding _ st) in H0
    as (_ & _ & _ & _ & H0).
  destruct (instructionFetchStage c1 st isForwarding) as [c2 st'].
  simpl in H0.
  assert (forall t x, loadsWriteRegisters x ->
                      loadsWriteRegisters (redirect t x)) as Hred
    by (intros t x Hx'; exact Hx').
  destruct bt; [apply (Hred tg) in H0|];
    destruct (exMemRedirect _); auto.
Qed.

Lemma afterExecute_loads_write isForwarding c :
  loadsWriteRegisters c -> loadsWriteRegisters (afterExecute isForwarding c).
Proof.
  intros H. unfold afterExecute, afterMemory, afterWriteBack.
  assert (loadsWriteRegisters (set_clockCycle (clockCycle c + 1) c)) as H0
    by exact H.
  apply (stages_loads_write isForwarding _ false) in H0 as (H0 & _).
  apply (stages_loads_write isForwarding _ false) in H0 as (_ & H0 & _).
  apply (stages_loads_write isForwarding _ false) in H0 as (_ & _ & H0 & _).
  exact H0.
Qed.

Lemma forwarding_hazard_is_plain_hazard ifId idEx exMem memWb :
  (memRead (idex_control idEx) = true -> regWrite (idex_control idEx) = true) ->
  (memRead (memwb_control memWb) = true ->
   regWrite (memwb_control memWb) = true) ->
  detectHazardF ifId idEx exMem memWb true false = true ->
  detectHazardF ifId idEx exMem memWb false false = true.
Proof.
  intros H1 H3. unfold detectHazardF.
  change (negb false) with true. rewrite !andb_true_r.
  rewrite <- !andb_assoc.
  generalize dependent (memRead (idex_control idEx)).
  generalize dependent (memRead (memwb_control memWb)).
  generalize (regWrite (idex_control idEx)) (regWrite (memwb_control memWb)).
  generalize (negb (rd (idex_instruction idEx) =? 0)
              && readsRegister (ifid_instruction ifId)
                   (rd (idex_instruction idEx))).
  generalize (negb (rd (memwb_instruction memWb) =? 0)
              && readsRegister (ifid_instruction ifId)
                   (rd (memwb_instruction memWb))).
  generalize (exmem_valid exMem
              && (regWrite (exmem_control exMem)
                  && (negb (rd (exmem_instruction exMem) =? 0)
                      && readsRegister (ifid_instruction ifId)
                           (rd (exmem_instruction exMem))))).
  generalize (isBranchOrJump (ifid_instruction ifId)) (ifid_valid ifId)
    (idex_valid idEx) (memwb_valid memWb).
  intros bj v0 v1 v3 x m3 m1 rw1 rw3 mr3 H3 mr1 H1.
  destruct v0, v1, mr1, m1; simpl; try discriminate;
    try (rewrite H1 by reflexivity); try reflexivity;
    destruct bj, v3, mr3, m3; simpl; try discriminate;
    try (rewrite H3 by reflexivity); try reflexivity;
    destruct rw1, x; simpl; reflexivity.
Qed.

(** In every state in which the driver calls the decode stage, a stall that
    the hazard detection unit raises under the forwarding policy is also
    raised under the no-forwarding policy on the same pipeline registers. *)
Theorem forwarding_policy_stalls_less
    (cpu s : Processor) (cycles : Z) (isForwarding : bool) :
  s = afterExecute isForwarding (executePipeline cpu cycles isForwarding) ->
  detectHazardF (ifId s) (idEx s) (exMem s) (memWb s) true false = true ->
  detectHazardF (ifId s) (idEx s) (exMem s) (memWb s) false false = true.
Proof.
  intros Hs.
  assert (loadsWriteRegisters s) as (H1 & _ & H3).
  { subst s. apply afterExecute_loads_write.
    apply executePipeline_invariant.
    - repeat split; discriminate.
    - intros c. apply cycle_loads_write. }
  now apply forwarding_hazard_is_plain_hazard.
Qed.

Lemma forwarding_policy_stalls_less_witness :
  detectHazardF
    (ifId (afterExecute true
             (executePipeline (Processor_new programLoadUse) 2 true)))
    (idEx (afterExecute true
             (executePipeline (Processor_new programLoadUse) 2 true)))
    (exMem (afterExecute true
              (executePipeline (Processor_new programLoadUse) 2 true)))
    (memWb (afterExecute true
              (executePipeline (Processor_new programLoadUse) 2 true)))
    false false = true.
Proof.
  set (s := afterExecute true
              (executePipeline (Processor_new programLoadUse) 2 true)).
  assert (detectHazardF (ifId s) (idEx s) (exMem s) (memWb s) true false
          = true) as H by (vm_compute; reflexivity).
  exact (forwarding_policy_stalls_less (Processor_new programLoadUse) s 2 true
           (eq_refl s) H).
Defined.

(** ** Accesses past the end of data memory *)

(** An access whose last byte lies past the end of the vector, and which
    does not wrap around the 32-bit address space, reads 0 and writes
    nothing. *)
Theorem access_past_end (memory : list Z) (address value : Z) (size : nat) :
  0 <= address -> (0 < size)%nat ->
  address + Z.of_nat size <= 2 ^ 32 ->
  Z.of_nat (length memory) < address + Z.of_nat size ->
  DataMemory_read memory address size = 0
  /\ DataMemory_write memory address value size = memory.
Proof.
  intros Ha Hs Hw Hout. unfold DataMemory_read, DataMemory_write.
  rewrite to_uint32_small by lia.
  destruct (address + Z.of_nat size - 1 <? Z.of_nat (length memory)) eqn:Hg;
    [apply Z.ltb_lt in Hg; lia|].
  split; reflexivity.
Qed.

Lemma access_past_end_witness :
  DataMemory_read DataMemory_init 1022 4 = 0
  /\ DataMemory_write DataMemory_init 1022 7 4 = DataMemory_init.
Proof.
  apply access_past_end;
    unfold DataMemory_init; rewrite ?length_replicate; lia.
Defined.

(** ** Trace recorder *)

(** The mnemonic table names every defined opcode, and names two different
    opcodes alike only for BLTU and BGEU, which both read "bgeu". *)
Theorem opcodeToString_collision (a b : Opcode) :
  (opcodeToString a = None <-> a = INVALID)
  /\ (opcodeToString a = opcodeToString b ->
      a = b \/ (a = BLTU /\ b = BGEU) \/ (a = BGEU /\ b = BLTU))
  /\ opcodeToString BLTU = opcodeToString BGEU.
Proof.
  split; [|split; [|reflexivity]].
  - destruct a; simpl; split; intros H; congruence.
  - destruct a, b; simpl; intros H; try discriminate H; auto.
Qed.

Lemma opcodeToString_collision_witness :
  BLTU = BGEU \/ (BLTU = BLTU /\ BGEU = BGEU) \/ (BLTU = BGEU /\ BGEU = BLTU).
Proof.
  exact (proj1 (proj2 (opcodeToString_collision BLTU BGEU)) eq_refl).
Defined.

(** After a stage has been recorded for a trace entry, its row holds the
    label at the cycle, "-" at the positions the row had to grow by, and its
    earlier labels elsewhere; the other rows are as before, and an index
    outside the table changes nothing. *)
Theorem trackInstructionStage_row
    (stages : list (list string)) (index cycle j : nat) (stage : string)
    (row : list string) :
  stages !! index = Some row ->
  exists row',
    trackInstructionStage stages (Z.of_nat index) cycle stage !! index
    = Some row'
    /\ length row' = Nat.max (length row) (S cycle)
    /\ row' !! j
       = (if (j =? cycle)%nat then Some stage
          else if (j <? length row)%nat then row !! j
          else if (j <? cycle)%nat then Some "-"%string
          else None)
    /\ (forall k, k <> index ->
          trackInstructionStage stages (Z.of_nat index) cycle stage !! k
          = stages !! k)
    /\ (forall out, Z.of_nat (length stages) <= out ->
          trackInstructionStage stages out cycle stage = stages).
Proof.
  intros Hrow.
  pose proof (lookup_lt_Some _ _ _ Hrow) as Hlt.
  unfold trackInstructionStage.
  assert ((0 <=? Z.of_nat index)
          && (Z.of_nat index <? Z.of_nat (length stages)) = true) as ->
    by (apply andb_true_iff; split; [apply Z.leb_le | apply Z.ltb_lt]; lia).
  rewrite Nat2Z.id, Hrow.
  set (grown := if (length row <=? cycle)%nat
                then row ++ replicate (cycle + 1 - length row) "-"%string
                else row).
  assert (length grown = Nat.max (length row) (S cycle)) as Hlen.
  { subst grown. destruct (length row <=? cycle)%nat eqn:H.
    - apply Nat.leb_le in H.
      rewrite length_app, length_replicate. lia.
    - apply Nat.leb_gt in H. lia. }
  exists (<[cycle := stage]> grown).
  split; [now apply list_lookup_insert_eq|].
  split; [now rewrite length_insert|].
  split; [|split].
  - destruct (j =? cycle)%nat eqn:Hj.
    + apply Nat.eqb_eq in Hj. subst j.
      apply list_lookup_insert_eq. lia.
    + apply Nat.eqb_neq in Hj.
      rewrite list_lookup_insert_ne by lia.
      subst grown.
      destruct (j <? length row)%nat eqn:Hjr.
      * apply Nat.ltb_lt in Hjr.
        destruct (length row <=? cycle)%nat; [|reflexivity].
        now apply lookup_app_l.
      * apply Nat.ltb_ge in Hjr.
        destruct (length row <=? cycle)%nat eqn:Hg.
        -- apply Nat.leb_le in Hg. rewrite lookup_app_r by lia.
           destruct (j <? cycle)%nat eqn:Hjc.
           ++ apply Nat.ltb_lt in Hjc. apply lookup_replicate_2. lia.
           ++ apply Nat.ltb_ge in Hjc. apply lookup_ge_None.
              rewrite length_replicate. lia.
        -- apply Nat.leb_gt in Hg.
           assert ((j <? cycle)%nat = false) as -> by (apply Nat.ltb_ge; lia).
           apply lookup_ge_None. lia.
  - intros k Hk. now apply list_lookup_insert_ne.
  - intros out Hout.
    destruct ((0 <=? out) && (out <? Z.of_nat (length stages))) eqn:H;
      [|reflexivity].
    apply andb_true_iff in H as [_ H]. apply Z.ltb_lt in H. lia.
Qed.

Lemma trackInstructionStage_row_witness :
  exists row',
    trackInstructionStage [["IF"%string]] 0 3 "WB" !! 0%nat = Some row'
    /\ length row' = 4%nat.
Proof.
  destruct (trackInstructionStage_row [["IF"%string]] 0 3 0 "WB"
              ["IF"%string] eq_refl) as (row' & H1 & H2 & _).
  exists row'. split; [exact H1 | exact H2].
Defined.

(** At the start of a run the trace table holds the addresses 0, 4, 8, ...
    of the program words, in order and once each. *)
Theorem initialTraces_addresses (size : nat) :
  Z.of_nat size <= 2 ^ 30 ->
  initialTraces size = map (fun i => Z.of_nat i * 4) (seq 0 size).
Proof.
  intros Hsize. unfold initialTraces.
  assert (forall n k : nat,
             Z.of_nat (k + n) <= 2 ^ 30 ->
             fold_left
               (fun traces i =>
                  initInstructionTrace traces (to_uint32 (Z.of_nat i * 4)))
               (seq k n) (map (fun i => Z.of_nat i * 4) (seq 0 k))
             = map (fun i => Z.of_nat i * 4) (seq 0 (k + n))) as Hgen.
  { induction n as [|n IH]; intros k Hk; simpl.
    - now rewrite Nat.add_0_r.
    - rewrite to_uint32_small by (change (2 ^ 32) with (4 * 2 ^ 30); lia).
      assert (isTracked (map (fun i => Z.of_nat i * 4) (seq 0 k))
                (Z.of_nat k * 4) = false) as Hnew.
      { unfold isTracked. destruct (existsb _ _) eqn:Hex; [|reflexivity].
        apply existsb_exists in Hex as (a & Hin & Heq).
        apply in_map_iff in Hin as (j & <- & Hj). apply in_seq in Hj.
        apply Z.eqb_eq in Heq. lia. }
      unfold initInstructionTrace. rewrite Hnew.
      replace (map (fun i => Z.of_nat i * 4) (seq 0 k) ++ [Z.of_nat k * 4])
        with (map (fun i => Z.of_nat i * 4) (seq 0 (S k)))
        by (rewrite seq_S, map_app; reflexivity).
      rewrite IH by lia. do 2 f_equal. lia. }
  apply (Hgen size 0%nat). simpl. lia.
Qed.

Lemma initialTraces_addresses_witness :
  initialTraces 3 = [0; 4; 8].
Proof.
  rewrite (initialTraces_addresses 3) by (simpl; lia). reflexivity.
Defined.

(** ** Shifts *)

Lemma shift_amount (b : Z) : Z.land b 31 = b mod 32.
Proof. change 31 with (Z.ones 5). now rewrite Z.land_ones by lia. Qed.

(** The shift operations use the low five bits of the second operand as the
    shift amount: SLL and SLLI multiply by the power of two and keep the low
    32 bits, SRL and SRLI divide the unsigned reading of the first operand,
    SRA and SRAI divide the signed value, rounding down. *)
Theorem alu_shifts (a b pcv imm : Z) :
  alu SLL a b pcv imm = signedLow 32 (a * 2 ^ (b mod 32))
  /\ alu SLLI a b pcv imm = signedLow 32 (a * 2 ^ (b mod 32))
  /\ alu SRL a b pcv imm = signedLow 32 (a mod 2 ^ 32 / 2 ^ (b mod 32))
  /\ alu SRLI a b pcv imm = signedLow 32 (a mod 2 ^ 32 / 2 ^ (b mod 32))
  /\ alu SRA a b pcv imm = a / 2 ^ (b mod 32)
  /\ alu SRAI a b pcv imm = a / 2 ^ (b mod 32).
Proof.
  pose proof (Z.mod_pos_bound b 32 ltac:(lia)) as Hb.
  unfold alu. rewrite shift_amount.
  rewrite Z.shiftl_mul_pow2, !Z.shiftr_div_pow2 by lia.
  repeat split; reflexivity.
Qed.

(** ** Jumps *)

Lemma clear_low_bit (x : Z) : Z.land x (-2) = 2 * (x / 2).
Proof.
  apply Z.bits_inj'. intros n Hn.
  rewrite Z.land_spec.
  change (-2) with (Z.lnot 1). rewrite Z.lnot_spec by lia.
  destruct (Z.eq_dec n 0) as [->|Hnz].
  - rewrite Z.testbit_even_0. change (Z.testbit 1 0) with true.
    apply andb_false_r.
  - replace n with (Z.succ (n - 1)) at 3 by lia.
    rewrite Z.testbit_even_succ by lia.
    replace (x / 2) with (x / 2 ^ 1) by reflexivity.
    rewrite Z.div_pow2_bits by lia.
    replace (n - 1 + 1) with n by lia.
    replace (Z.succ (n - 1)) with n by lia.
    assert (Z.testbit 1 n = false) as ->
      by (apply Z.bits_above_log2; simpl; lia).
    apply andb_true_r.
Qed.

(** A JAL or JALR that the decode stage resolves (valid IF/ID entry, no
    stall) is reported taken: JAL to its address plus its immediate, JALR to
    the sum of its first operand value and its immediate with bit 0 cleared,
    both in 32-bit arithmetic. *)
Theorem jumps_always_taken
    (cpu cpu' : Processor) (isForwarding taken : bool) (target : Z) :
  ifid_valid (ifId cpu) = true ->
  opcode (ifid_instruction (ifId cpu)) = JAL
  /\ format (ifid_instruction (ifId cpu)) = J_TYPE
  \/ opcode (ifid_instruction (ifId cpu)) = JALR
     /\ format (ifid_instruction (ifId cpu)) = I_TYPE ->
  instructionDecodeStage cpu false isForwarding = (cpu', false, taken, target) ->
  taken = true
  /\ (opcode (ifid_instruction (ifId cpu)) = JAL ->
      target
      = to_uint32 (ifid_pc (ifId cpu) + immediate (ifid_instruction (ifId cpu))))
  /\ (opcode (ifid_instruction (ifId cpu)) = JALR ->
      target
      = to_uint32
          (2 * (to_int32 (rs1Value cpu isForwarding
                          + immediate (ifid_instruction (ifId cpu))) / 2))
      /\ target mod 2 = 0).
Proof.
  intros Hvalid Hop Hdec.
  unfold instructionDecodeStage in Hdec.
  rewrite Hvalid in Hdec. simpl in Hdec.
  destruct (detectHazardF _ _ _ _ _ _); [discriminate Hdec|].
  assert (isBranchOrJump (ifid_instruction (ifId cpu)) = true) as Hb.
  { unfold isBranchOrJump.
    destruct Hop as [(Ho & Hf) | (Ho & Hf)]; rewrite Hf, ?Ho; reflexivity. }
  rewrite Hb in Hdec. simpl in Hdec.
  destruct (isForwarding && needsStall cpu); [discriminate Hdec|].
  unfold resolveBranch in Hdec.
  destruct Hop as [(Ho & Hf) | (Ho & Hf)]; rewrite Hf, Ho in Hdec;
    simpl in Hdec; injection Hdec as _ <- <-; rewrite Ho.
  - split; [reflexivity|]. split; [reflexivity | discriminate].
  - split; [reflexivity|]. split; [discriminate|]. intros _.
    rewrite clear_low_bit. split; [reflexivity|].
    unfold to_uint32. change (2 ^ 32) with (2 * 2147483648).
    rewrite Z.rem_mul_r by lia.
    rewrite Z.mul_comm, Z.mod_mul by lia.
    rewrite Z.add_0_l, Z.mul_comm. apply Z.mod_mul. lia.
Qed.

Lemma jumps_always_taken_witness :
  ifid_valid (ifId (processorDecoding 0 0x008000EF)) = true
  /\ opcode (ifid_instruction (ifId (processorDecoding 0 0x008000EF))) = JAL
  /\ 8 = to_uint32
           (ifid_pc (ifId (processorDecoding 0 0x008000EF))
            + immediate (ifid_instruction (ifId (processorDecoding 0 0x008000EF)))).
Proof.
  assert (instructionDecodeStage (processorDecoding 0 0x008000EF) false true
          = ((instructionDecodeStage (processorDecoding 0 0x008000EF)
                false true).1.1.1, false, true, 8)) as H
    by (vm_compute; reflexivity).
  assert (ifid_valid (ifId (processorDecoding 0 0x008000EF)) = true) as V
    by reflexivity.
  assert (opcode (ifid_instruction (ifId (processorDecoding 0 0x008000EF)))
          = JAL) as J by reflexivity.
  assert (format (ifid_instruction (ifId (processorDecoding 0 0x008000EF)))
          = J_TYPE) as F by reflexivity.
  split; [exact V|]. split; [exact J|].
  exact (proj1 (proj2 (jumps_always_taken _ _ true true 8 V
                         (or_introl (conj J F)) H)) J).
Defined.
